(** * The expense form: validator, submission sanitizer and step controller

    A shallow embedding of [src/components/expenses/ExpenseForm.js].

    The form manipulates plain JavaScript objects through property reads,
    optional chaining and a handful of lodash helpers.  Records are therefore
    kept as JavaScript values: an object is a finite map from property names
    to values, so that equality of maps is deep equality of objects and a key
    bound to [undefined] differs from an absent key, as it does for
    [pick], [Object.assign] and [isEmpty]. *)

From stdpp Require Import gmap strings list fin_maps pretty.
From Stdlib Require Import ZArith Ascii.

#[local] Set Warnings "-register-all".
#[local] Open Scope string_scope.

(** ** JavaScript values *)

Module Js.

(** Numbers are the integers the form handles (amounts in cents, legacy
    ids); there are no function values, so calling a method on a value that
    does not have it is always a [TypeError]. *)
Inductive value : Type :=
| VUndefined
| VNull
| VBool (b : bool)
| VNum (n : Z)
| VStr (s : string)
| VArr (l : list value)
| VObj (o : gmap string value).

Abbreviation obj := (gmap string value).

(** Outcome of evaluating an expression that may throw. *)
Inductive result (A : Type) : Type :=
| Ok (a : A)
| TypeError.
Arguments Ok {A} a.
Arguments TypeError {A}.

#[export] Instance result_ret : MRet result := λ A a, Ok a.
#[export] Instance result_bind : MBind result := λ A B f m,
  match m with
  | Ok a => f a
  | TypeError => TypeError
  end.

(** [arr.map(f)] for an [f] that may throw, left to right. *)
Fixpoint mapR {A B : Type} (f : A → result B) (l : list A) : result (list B) :=
  match l with
  | [] => Ok []
  | x :: l' => y ← f x; ys ← mapR f l'; Ok (y :: ys)
  end.

(** Truthiness, as tested by [if], [?:], [!], [&&] and [||]. *)
Definition truthy (v : value) : bool :=
  match v with
  | VUndefined | VNull => false
  | VBool b => b
  | VNum n => negb (n =? 0)%Z
  | VStr s => negb (String.eqb s "")
  | VArr _ | VObj _ => true
  end.

(** [a && b] and [a || b] return one of their operands. *)
Definition js_and (a b : value) : value := if truthy a then b else a.
Definition js_or (a b : value) : value := if truthy a then a else b.

Definition nullish (v : value) : bool :=
  match v with
  | VUndefined | VNull => true
  | _ => false
  end.

(** [typeof v === 'string'] *)
Definition is_string (v : value) : bool :=
  match v with
  | VStr _ => true
  | _ => false
  end.

(** [v === s] for a string constant [s]. *)
Definition strict_eq_str (v : value) (s : string) : bool :=
  match v with
  | VStr s' => String.eqb s' s
  | _ => false
  end.

(** [o.k] on an object: a missing property reads as [undefined]. *)
Definition prop (o : obj) (k : string) : value := default VUndefined (o !! k).

(** [v?.k].  The names read this way in the form ([id], [isInvite],
    [isNewUser], [country], [address], [__isNew]) are no properties of
    arrays, strings, numbers or booleans, which all read as [undefined]. *)
Definition opt_prop (v : value) (k : string) : value :=
  match v with
  | VObj o => prop o k
  | _ => VUndefined
  end.

(** The own property [k] of [v], when [v] is an object that has it. *)
Definition own_prop (v : value) (k : string) : option value :=
  match v with
  | VObj o => o !! k
  | _ => None
  end.

(** [v.k]: throws on [null] and [undefined]. *)
Definition member (v : value) (k : string) : result value :=
  if nullish v then TypeError else Ok (opt_prop v k).

(** [v.length] *)
Definition length_of (v : value) : result value :=
  match v with
  | VUndefined | VNull => TypeError
  | VArr l => Ok (VNum (Z.of_nat (length l)))
  | VStr s => Ok (VNum (Z.of_nat (String.length s)))
  | _ => Ok (opt_prop v "length")
  end.

(** [n > 0] for the value of a [length] property: a number is compared,
    a boolean is converted, [undefined] and [null] compare false.  Other
    values (a string or an object stored under the key [length]) are not
    converted here and compare false. *)
Definition gt_zero (v : value) : bool :=
  match v with
  | VNum n => (0 <? n)%Z
  | VBool b => b
  | _ => false
  end.

(** The receiver of [v.map(f)]: only arrays have [map]. *)
Definition array_of (v : value) : result (list value) :=
  match v with
  | VArr l => Ok l
  | _ => TypeError
  end.

End Js.
Export Js.

(** ** The lodash helpers the form imports

    A property path such as ['payeeLocation.country'] is written as the list
    of its segments, [["payeeLocation"; "country"]]. *)

Module Lodash.

Abbreviation path := (list string).

(** [_.get(v, path)]: [undefined] as soon as a segment cannot be read. *)
Fixpoint get (v : value) (p : path) : value :=
  match p with
  | [] => v
  | k :: p' => get (opt_prop v k) p'
  end.

(** [_.pick(v, keys)] for top-level keys: the properties of [v] that are
    present (even when bound to [undefined]) and listed; [{}] when [v] is
    not an object. *)
Definition pick (v : value) (keys : list string) : obj :=
  match v with
  | VObj o => filter (λ kv, kv.1 ∈ keys) o
  | _ => ∅
  end.

(** [_.omit(o, path)] for one deep path: the property at the end of the path
    is removed when the path can be followed. *)
Fixpoint omit (o : obj) (p : path) : obj :=
  match p with
  | [] => o
  | [k] => delete k o
  | k :: p' =>
      match o !! k with
      | Some (VObj child) => <[k := VObj (omit child p')]> o
      | _ => o
      end
  end.

(** [_.isEmpty(v)]: no own enumerable keys, or zero length. *)
Definition isEmpty (v : value) : bool :=
  match v with
  | VObj o => bool_decide (o = ∅)
  | VArr l => bool_decide (l = [])
  | VStr s => String.eqb s ""
  | _ => true
  end.

(** [_.set(o, path, v)]: intermediate segments that are not objects are
    replaced by fresh objects.  The values met on a path of the form are
    objects, primitives or absent; an array there, which lodash keeps and
    extends with the named field, has no counterpart among the values. *)
Fixpoint set (o : obj) (p : path) (v : value) : obj :=
  match p with
  | [] => o
  | [k] => <[k := v]> o
  | k :: p' =>
      let child := match o !! k with
                   | Some (VObj c) => c
                   | _ => ∅
                   end in
      <[k := VObj (set child p' v)]> o
  end.

End Lodash.
Export Lodash.

(** ** Constants and helpers the form imports from [lib/] *)

(** Modelled from the spec: [lib/constants/expenseTypes] is not among the
    sources; the spec names the expense types INVOICE, RECEIPT and
    FUNDING_REQUEST, which the form compares with [===]. *)
Module expenseTypes.
Definition INVOICE : string := "INVOICE".
Definition RECEIPT : string := "RECEIPT".
Definition FUNDING_REQUEST : string := "FUNDING_REQUEST".
End expenseTypes.

(** Modelled from the spec: the error value [requireFields] of
    [lib/form-utils] stores for a missing field is not among the sources;
    it is an object describing a required-field error. *)
Definition requiredError : value :=
  VObj {[ "type" := VStr "FORM_FIELD_REQUIRED" ]}.

(** Modelled from the spec: [requireFields] of [lib/form-utils] is not among
    the sources.  The spec has it check the listed fields of a record and
    return an error map in which only present keys indicate errors: every
    listed path whose value is empty or absent (falsy) gets an error stored
    at that path, and nothing else is stored. *)
Definition requireFields (o : obj) (fields : list path) : obj :=
  foldl (λ errors field,
           if truthy (get (VObj o) field) then errors
           else set errors field requiredError)
        ∅ fields.

(** An error map reports an error on a path when something is stored there. *)
Definition has_error (errors : obj) (p : path) : bool :=
  negb (nullish (get (VObj errors) p)).

(** ** The submission sanitizer *)

(** The keys kept of one item (lines 117-123). *)
Definition item_keys (isNew isInvoice isFundingRequest : bool) : list string :=
  (if isNew then [] else ["id"]) ++
  (if isInvoice || isFundingRequest then [] else ["url"]) ++
  ["description"; "incurredAt"; "amount"].

(** [prepareExpenseForSubmit] (lines 100-126).  The payee is computed first
    and is the first place where the function can throw; the object literal
    then spreads the picked top-level fields and sets the five remaining
    keys, whose names differ from the picked ones. *)
Definition prepareExpenseForSubmit (expenseData : obj) : result obj :=
  let payeeIdField :=
    if is_string (opt_prop (prop expenseData "payee") "id") then "id" else "legacyId" in
  let isInvoice := strict_eq_str (prop expenseData "type") expenseTypes.INVOICE in
  let isFundingRequest :=
    strict_eq_str (prop expenseData "type") expenseTypes.FUNDING_REQUEST in
  payee ←
    (if truthy (js_or (opt_prop (prop expenseData "payee") "isNewUser")
                   (opt_prop (prop expenseData "payee") "isInvite"))
     then Ok (pick (prop expenseData "payee")
                   ["name"; "email"; "organization"; "newsletterOptIn"])
     else payeeId ← member (prop expenseData "payee") "id";
          Ok {[ payeeIdField := payeeId ]});
  attachedFiles ←
    (if isInvoice
     then if nullish (prop expenseData "attachedFiles") then Ok VUndefined
          else files ← array_of (prop expenseData "attachedFiles");
               Ok (VArr (map (λ file, VObj (pick file ["id"; "url"])) files))
     else Ok (VArr []));
  items ← (its ← array_of (prop expenseData "items");
           mapR (λ item,
                   isNew ← member item "__isNew";
                   Ok (VObj (pick item (item_keys (truthy isNew) isInvoice isFundingRequest))))
                its);
  Ok (<["items" := VArr items]>
      (<["attachedFiles" := attachedFiles]>
      (<["payeeLocation" :=
           if isInvoice
           then VObj (pick (prop expenseData "payeeLocation") ["address"; "country"])
           else VNull]>
      (<["payoutMethod" :=
           VObj (pick (prop expenseData "payoutMethod")
                      ["id"; "name"; "data"; "isSaved"; "type"])]>
      (<["payee" := VObj payee]>
      (pick (VObj expenseData)
            ["id"; "description"; "longDescription"; "type"; "privateMessage";
             "invoiceInfo"; "tags"])))))).

(** What the spec asks of one submitted item: no client-side bookkeeping
    ([__isNew], and the temporary [id] of a new item), no [url] for an
    invoice or a funding request, and otherwise the item's own [id], [url],
    [description], [incurredAt] and [amount], nothing more. *)
Definition submitted_item (isInvoice isFundingRequest : bool) (item out : value) : Prop :=
  ∃ o, out = VObj o
    ∧ o !! "__isNew" = None
    ∧ o !! "id" = (if truthy (opt_prop item "__isNew") then None else own_prop item "id")
    ∧ o !! "url" = (if isInvoice || isFundingRequest then None else own_prop item "url")
    ∧ (∀ k, k ∈ ["description"; "incurredAt"; "amount"] → o !! k = own_prop item k)
    ∧ (∀ k, is_Some (o !! k) →
         k ∈ ["id"; "url"; "description"; "incurredAt"; "amount"]).

(** ** When the sanitizer is defined

    The payee can be read (it is an invited or new user, or at least not
    [null]/[undefined]), the attached files of an invoice are absent or an
    array, and the items are an array without [null]/[undefined] entries. *)
Definition sanitizable (expenseData : obj) : bool :=
  (truthy (js_or (opt_prop (prop expenseData "payee") "isNewUser")
                 (opt_prop (prop expenseData "payee") "isInvite"))
   || negb (nullish (prop expenseData "payee")))
  && (if strict_eq_str (prop expenseData "type") expenseTypes.INVOICE
      then match prop expenseData "attachedFiles" with
           | VUndefined | VNull | VArr _ => true
           | _ => false
           end
      else true)
  && match prop expenseData "items" with
     | VArr its => forallb (λ item, negb (nullish item)) its
     | _ => false
     end.

(** ** The step controller's states *)

Inductive STEPS : Type := PAYEE | EXPENSE.

(** What [ExpenseFormBody] reads and writes: formik's [values] and [errors],
    and the [step] held by [React.useState]. *)
Record form : Type := Form {
  values : obj;
  errors : obj;
  step : STEPS;
}.

(** [formik.setFieldValue(k, v)] for a top-level field.  Formik's [setIn]
    binds the key to [v]; for [undefined] it removes the key instead, unless
    the field reads [undefined] already, in which case the values are
    returned as they are. *)
Definition setFieldValue (k : string) (v : value) (f : form) : form :=
  Form (match v with
        | VUndefined =>
            match prop (values f) k with
            | VUndefined => values f
            | _ => delete k (values f)
            end
        | _ => <[k := v]> (values f)
        end)
       (errors f) (step f).

Definition setStep (s : STEPS) (f : form) : form :=
  Form (values f) (errors f) s.

(** [formik.setErrors(e)] replaces the error map. *)
Definition setErrors (e : obj) (f : form) : form :=
  Form (values f) e (step f).

(** The effect that runs when [values.type] changes (lines 232-237). *)
Definition onTypeChange (isDraft : bool) (f : form) : form :=
  let f1 := setStep PAYEE f in
  if negb isDraft && truthy (opt_prop (prop (values f) "payee") "isInvite")
  then setFieldValue "payee" VNull f1
  else f1.

(** The "Back" button of the expense step (lines 472-477). *)
Definition onBack (f : form) : form :=
  let f1 := setStep PAYEE f in
  if truthy (opt_prop (prop (values f) "payee") "isInvite")
  then setFieldValue "payee" VNull f1
  else f1.

(** [disabled={!stepTwoCompleted || !formik.isValid}] (line 491). *)
Definition submitDisabled (stepTwoCompleted : value) (isValid : bool) : bool :=
  negb (truthy stepTwoCompleted) || negb isValid.

(** What the payee step shows (lines 293-320): a placeholder while loading,
    the sign-up step for a draft opened by someone who is not logged in, and
    the payee step otherwise. *)
Inductive payeeStepView : Type :=
| LoadingPlaceholder
| ExpenseFormPayeeSignUpStep
| ExpenseFormPayeeStep.

Definition payeeStep (loading isDraft loggedInAccount : bool) : payeeStepView :=
  if loading then LoadingPlaceholder
  else if isDraft && negb loggedInAccount then ExpenseFormPayeeSignUpStep
  else ExpenseFormPayeeStep.

(** ** The rest of [ExpenseFormBody]: effects on the form *)

(** [{...v}]: the own enumerable properties of [v].  An array or a string
    spreads into its indices (the strings of the form are ASCII text, one
    index per character); numbers, booleans, [null] and [undefined] spread
    into nothing. *)
Definition spread (v : value) : obj :=
  match v with
  | VObj o => o
  | VArr l => list_to_map (imap (λ i x, (pretty i, x)) l)
  | VStr s =>
      list_to_map (imap (λ i c, (pretty i, VStr (String c ""))) (String.list_ascii_of_string s))
  | _ => ∅
  end.

(** [_.first(array)] *)
Definition first (array : list value) : value := default VUndefined (head array).

(** [formik.setFieldValue(path, v)] for a nested field and a value other
    than [undefined]: formik's [setIn] copies the objects on the way and
    creates the missing ones, as [_.set] does on a path without arrays. *)
Definition setFieldValueIn (p : path) (v : value) (f : form) : form :=
  Form (set (values f) p v) (errors f) (step f).

(** [formik.setValues(v)] *)
Definition setValues (v : obj) (f : form) : form :=
  Form v (errors f) (step f).

(** [_.omit(o, paths)] for a list of paths. *)
Definition omitAll (o : obj) (paths : list path) : obj := foldl omit o paths.

(** [getDefaultExpense] (lines 80-94); the collective is a required prop. *)
Definition getDefaultExpense (collective : obj) : obj :=
  {[ "description" := VStr "";
     "longDescription" := VStr "";
     "items" := VArr [];
     "attachedFiles" := VArr [];
     "payee" := VNull;
     "payoutMethod" := VUndefined;
     "privateMessage" := VStr "";
     "invoiceInfo" := VStr "";
     "currency" := prop collective "currency";
     "payeeLocation" := VObj {[ "address" := VStr ""; "country" := VNull ]} ]}.

(** [setLocationFromPayee] (lines 162-165): two field updates, each reading
    [payee.location] without a guard. *)
Definition setLocationFromPayee (payee : value) (f : form) : result form :=
  location ← member payee "location";
  country ← member location "country";
  let f1 := setFieldValueIn ["payeeLocation"; "country"] (js_or country VNull) f in
  location' ← member payee "location";
  address ← member location' "address";
  Ok (setFieldValueIn ["payeeLocation"; "address"] (js_or address (VStr "")) f1).

(** The effect that runs when [values.payee] changes (lines 222-229); both
    tests read the values of the render that scheduled the effect. *)
Definition onPayeeChange (isDraft : bool) (f : form) : result form :=
  f1 ← (if negb (truthy (opt_prop (prop (values f) "payeeLocation") "address"))
           && truthy (opt_prop (prop (values f) "payee") "location")
        then setLocationFromPayee (prop (values f) "payee") f
        else Ok f);
  Ok (if negb isDraft && truthy (opt_prop (prop (values f) "payee") "isInvite")
      then setStep EXPENSE f1
      else f1).

(** The effect that runs when the payout profiles or the logged-in account
    change (lines 207-219).  [loggedInAccount] is an object or absent and is
    only tested; [payoutProfiles] is an array, and an absent one behaves as
    the empty array ([isEmpty(undefined)]). *)
Definition onPayoutProfiles (isDraft loggedInAccount : bool)
    (payoutProfiles : list value) (f : form) : form :=
  if truthy (opt_prop (prop (values f) "draft") "payee") && negb loggedInAccount then
    setFieldValue "payee"
      (VObj (<["isNewUser" := VBool true]>
            (<["isInvite" := VBool false]>
            (spread (opt_prop (prop (values f) "draft") "payee")))))
      f
  else if negb (truthy (opt_prop (prop (values f) "payee") "isInvite"))
          && (isDraft || negb (truthy (prop (values f) "payee")))
          && loggedInAccount
          && negb (bool_decide (payoutProfiles = []))
  then setFieldValue "payee" (first payoutProfiles) f
  else f.

(** The step once the form is mounted, that is after the effects of the
    first render.  [f] is the form of that render, its step being the
    argument of [React.useState].  Every effect runs after it, in the order
    of the source, and reads its values; two of them call [setStep], the
    payee effect (lines 226-228) and then the type effect (line 233), and
    the later call wins. *)
Definition stepAfterMount (isDraft : bool) (f : form) : result STEPS :=
  f1 ← onPayeeChange isDraft f;
  Ok (step (onTypeChange isDraft (setStep (step f1) f))).

(** ** [TruncatedTextWithTooltip]

    The text is ASCII, so that the length of a string is the number of its
    characters both for [value.length] and for lodash; the length prop is an
    integer. *)

Module TruncatedText.

(** What the component returns: the bare text, or a tooltip holding the full
    text around the shortened one. *)
Inductive rendered : Type :=
| Text (value : string)
| Tooltip (content shown : string).

(** The strings on which [value.length] and lodash's count of symbols are
    both the number of characters. *)
Definition is_ascii (s : string) : bool :=
  forallb (λ c, Nat.ltb (Ascii.nat_of_ascii c) 128) (String.list_ascii_of_string s).

(** [_.truncate(s, { length })], with the default omission ["..."]. *)
Definition truncate (s : string) (length : Z) : string :=
  if (length >=? Z.of_nat (String.length s))%Z then s
  else
    let end_ := (length - 3)%Z in
    if (end_ <? 1)%Z then "..."
    else String.substring 0 (Z.to_nat end_) s +:+ "...".

(** The component; an absent [length] prop defaults to 30. *)
Definition TruncatedTextWithTooltip (value : string) (length : option Z) : rendered :=
  let length := default 30%Z length in
  if (Z.of_nat (String.length value) <=? length)%Z then Text value
  else Tooltip value (truncate value length).

(** The text put on the page, and the text a reader can get at. *)
Definition shown_text (r : rendered) : string :=
  match r with
  | Text value => value
  | Tooltip _ shown => shown
  end.

Definition full_text (r : rendered) : string :=
  match r with
  | Text value => value
  | Tooltip content _ => content
  end.

End TruncatedText.

(** ** [CreateCollectiveForm]

    The form's values are the strings of three text inputs; repository names
    and slugs are ASCII. *)

Module CreateCollectiveForm.

(** The messages of [defineMessages] the validator hands to [formatMessage]. *)
Inductive message : Type :=
| errorName
| errorDescription
| errorSlug
| errorSlugHyphen.

Record formValues : Type := FormValues {
  name : string;
  slug : string;
  description : string;
}.

(** [_.trim(s, '-')]: the hyphens at both ends are removed. *)
Fixpoint trimStart (s : string) : string :=
  match s with
  | String c s' => if Ascii.eqb c "-"%char then trimStart s' else s
  | EmptyString => EmptyString
  end.

Fixpoint trimEnd (s : string) : string :=
  match s with
  | EmptyString => EmptyString
  | String c s' =>
      match trimEnd s' with
      | EmptyString => if Ascii.eqb c "-"%char then EmptyString else String c EmptyString
      | t => String c t
      end
  end.

Definition trim (s : string) : string := trimEnd (trimStart s).

(** [validate] (lines 123-142); a later assignment to [errors.slug] replaces
    an earlier one. *)
Definition validate (values : formValues) : gmap string message :=
  let errors0 : gmap string message := ∅ in
  let errors1 :=
    if (50 <? String.length (name values))%nat
    then <["name" := errorName]> errors0 else errors0 in
  let errors2 :=
    if (30 <? String.length (slug values))%nat
    then <["slug" := errorSlug]> errors1 else errors1 in
  let errors3 :=
    if negb (String.eqb (slug values) (trim (slug values)))
    then <["slug" := errorSlugHyphen]> errors2 else errors2 in
  if (160 <? String.length (description values))%nat
  then <["description" := errorDescription]> errors3 else errors3.

(** [\s] and [toUpperCase] on ASCII characters. *)
Definition is_space (c : Ascii.ascii) : bool :=
  let n := Ascii.nat_of_ascii c in
  (n =? 32)%nat || ((9 <=? n)%nat && (n <=? 13)%nat).

Definition toUpperCase (c : Ascii.ascii) : Ascii.ascii :=
  let n := Ascii.nat_of_ascii c in
  if (97 <=? n)%nat && (n <=? 122)%nat then Ascii.ascii_of_nat (n - 32) else c.

(** [s.replace(/[-_]/g, ' ')] *)
Fixpoint replaceDashes (s : string) : string :=
  match s with
  | EmptyString => EmptyString
  | String c s' =>
      String (if Ascii.eqb c "-"%char || Ascii.eqb c "_"%char then " "%char else c)
             (replaceDashes s')
  end.

(** [s.replace(/(?:^|\s)\S/g, w => w.toUpperCase())]: a character that is
    not a space is put in upper case when it opens the string or follows a
    space; [boundary] tells whether the character before was one. *)
Fixpoint capitalise (boundary : bool) (s : string) : string :=
  match s with
  | EmptyString => EmptyString
  | String c s' =>
      String (if boundary && negb (is_space c) then toUpperCase c else c)
             (capitalise (is_space c) s')
  end.

(** [formatGithubRepoName] (lines 78-81) *)
Definition formatGithubRepoName (repoName : string) : string :=
  capitalise true (replaceDashes repoName).

(** [initialValues] (lines 117-121); [github] is absent or carries the name
    of a repository. *)
Definition initialValues (github : option string) : formValues :=
  {| name := match github with
             | Some repo => formatGithubRepoName repo
             | None => ""
             end;
     description := "";
     slug := match github with
             | Some repo => repo
             | None => ""
             end |}.

(** The component's own state, and the part of the router's query and of
    the host it looks at. *)
Record state : Type := State {
  tos : bool;
  hostTos : bool;
}.

Record props : Type := Props {
  queryCategory : value;
  queryStep : value;
  queryHostTos : value;
  host : value;
}.

(** The constructor (lines 97-104). *)
Definition initialState : state := State false false.

(** [componentDidMount] (lines 106-112) *)
Definition componentDidMount (p : props) (st : state) : state :=
  if truthy (js_or (VBool (strict_eq_str (queryCategory p) "opensource"
                           && strict_eq_str (queryStep p) "form"))
                   (queryHostTos p))
  then State (tos st) true
  else st.

(** Whether the host's terms checkbox is rendered (line 301). *)
Definition hostTosCheckbox (p : props) : bool :=
  truthy (js_and (js_and (VBool (negb (truthy (queryHostTos p)))) (host p))
                 (opt_prop (host p) "termsUrl")).

(** What the user can do to the state: tick or untick a checkbox that is on
    the page (lines 297-299 and 320-322). *)
Inductive change (p : props) : state → state → Prop :=
| change_tos (st : state) (checked : bool) :
    change p st (State checked (hostTos st))
| change_hostTos (st : state) (checked : bool) :
    hostTosCheckbox p = true →
    change p st (State (tos st) checked).

(** The states the component can be in once mounted. *)
Inductive reachable (p : props) : state → Prop :=
| reachable_mounted : reachable p (componentDidMount p initialState)
| reachable_change (st st' : state) :
    reachable p st → change p st st' → reachable p st'.

(** What [submit] hands to [onSubmit] (lines 144-148). *)
Record submission : Type := Submission {
  sub_name : string;
  sub_description : string;
  sub_slug : string;
  sub_tos : bool;
  sub_hostTos : bool;
}.

Definition submit (st : state) (values : formValues) : submission :=
  Submission (name values) (description values) (slug values) (tos st) (hostTos st).

(** A slug that starts or ends with a hyphen, in plain words. *)
Definition hyphen_at_an_end (s : string) : Prop :=
  (∃ t, s = String "-"%char t) ∨ (∃ t, s = t +:+ "-").

End CreateCollectiveForm.

(** ** Sample records and collaborators used to run the definitions *)

Module Samples.

Definition noItemErrors : obj → value → value := λ _ _, VObj ∅.
Definition noPayoutErrors : value → value := λ _, VObj ∅.
(** A payout-method check that requires a [type]. *)
Definition requirePayoutType : value → value := λ pm,
  if truthy (opt_prop pm "type") then VObj ∅
  else VObj {[ "type" := requiredError ]}.
(** Stand-in for [flattenObjectDeep] on error maps without nesting. *)
Definition flattenFlat : value → value := λ v, v.

Definition invitee : value :=
  VObj {[ "isInvite" := VBool true; "name" := VStr "Ann";
          "email" := VStr "ann@example.org" ]}.

(** An invoice drafted for an invited payee, location left as
    [getDefaultExpense] has it. *)
Definition invoiceForInvitee : obj :=
  {[ "type" := VStr "INVOICE"; "description" := VStr "Design work";
     "payee" := invitee; "items" := VArr [];
     "payeeLocation" := VObj {[ "address" := VStr ""; "country" := VNull ]} ]}.

(** An invited payee with a name but neither id nor email. *)
Definition inviteeNameOnly : obj :=
  {[ "type" := VStr "RECEIPT"; "description" := VStr "Taxi";
     "payee" := VObj {[ "isInvite" := VBool true; "name" := VStr "Ann" ]};
     "items" := VArr [] ]}.

Definition receiptForInvitee : obj :=
  {[ "type" := VStr "RECEIPT"; "description" := VStr "Taxi";
     "payee" := invitee; "items" := VArr [] ]}.

(** What the sanitizer makes of [receiptForInvitee], and the reference a
    second pass puts in place of its payee. *)
Definition receiptForInviteePayload : obj :=
  {[ "type" := VStr "RECEIPT"; "description" := VStr "Taxi";
     "payee" := VObj {[ "name" := VStr "Ann"; "email" := VStr "ann@example.org" ]};
     "payoutMethod" := VObj ∅;
     "payeeLocation" := VNull;
     "attachedFiles" := VArr [];
     "items" := VArr [] ]}.
Definition legacyUndefined : value := VObj {[ "legacyId" := VUndefined ]}.

(** A profile created through the legacy picker: numeric id. *)
Definition receiptLegacyPayee : obj :=
  {[ "type" := VStr "RECEIPT"; "description" := VStr "Taxi";
     "payee" := VObj {[ "id" := VNum 42 ]}; "items" := VArr [] ]}.

Definition newItem : value :=
  VObj {[ "__isNew" := VBool true; "id" := VStr "tmp-1"; "description" := VStr "x";
          "amount" := VNum 5; "url" := VStr "http://x" ]}.

Definition invoiceOfProfile : obj :=
  {[ "type" := VStr "INVOICE"; "description" := VStr "Design work";
     "payee" := VObj {[ "id" := VStr "p1"; "name" := VStr "Ann" ]};
     "payoutMethod" := VObj {[ "id" := VStr "pm1" ]};
     "currency" := VStr "USD";
     "items" := VArr [newItem];
     "payeeLocation" := VObj {[ "address" := VStr ""; "country" := VNull ]} ]}.

(** What the sanitizer makes of [invoiceOfProfile]. *)
Definition invoiceOfProfilePayload : obj :=
  {[ "type" := VStr "INVOICE"; "description" := VStr "Design work";
     "payee" := VObj {[ "id" := VStr "p1" ]};
     "payoutMethod" := VObj {[ "id" := VStr "pm1" ]};
     "payeeLocation" := VObj {[ "address" := VStr ""; "country" := VNull ]};
     "attachedFiles" := VUndefined;
     "items" := VArr [VObj {[ "description" := VStr "x"; "amount" := VNum 5 ]}] ]}.

Definition noPayee : obj :=
  {[ "type" := VStr "RECEIPT"; "description" := VStr "Taxi";
     "payee" := VNull; "items" := VArr [] ]}.

(** A receipt with everything but items, as in the spec's example. *)
Definition taxiNoItems : form :=
  Form {[ "type" := VStr "RECEIPT"; "description" := VStr "Taxi";
          "items" := VArr []; "payee" := VObj {[ "id" := VStr "1" ]};
          "payoutMethod" := VObj {[ "id" := VStr "pm1" ]};
          "currency" := VStr "USD" ]}
       ∅ PAYEE.

(** A draft whose payee is an invitee, shown on the expense step. *)
Definition draftForInvitee : form :=
  Form receiptForInvitee ∅ EXPENSE.

(** An item validator that asks for an amount. *)
Definition requireItemAmount : obj → value → value := λ _ item,
  if truthy (opt_prop item "amount") then VObj ∅
  else VObj {[ "amount" := requiredError ]}.

(** A receipt with two items, the second without an amount. *)
Definition receiptTwoItems : obj :=
  {[ "type" := VStr "RECEIPT"; "description" := VStr "Taxi";
     "payee" := VObj {[ "id" := VStr "1" ]};
     "payoutMethod" := VObj {[ "id" := VStr "pm1" ]};
     "currency" := VStr "USD";
     "items" := VArr [newItem; VObj {[ "description" := VStr "y" ]}] ]}.

Definition collectiveUSD : obj := {[ "currency" := VStr "USD" ]}.

(** A draft as the API returns it: its items are kept under [draft]. *)
Definition draftExpense : obj :=
  {[ "status" := VStr "DRAFT"; "description" := VStr "Taxi";
     "items" := VArr [];
     "draft" := VObj {[ "items" := VArr [newItem]; "attachedFiles" := VArr [] ]} ]}.

(** Values kept by the persister, with a deprecated field and a bank
    account. *)
Definition persistedValues : obj :=
  {[ "description" := VStr "Taxi"; "location" := VStr "Paris";
     "payoutMethod" := VObj {[ "type" := VStr "BANK_ACCOUNT" ]} ]}.

(** A draft opened by its payee, who is not logged in. *)
Definition draftToComplete : form :=
  Form {[ "type" := VStr "RECEIPT"; "description" := VStr "Taxi";
          "items" := VArr []; "payee" := VNull;
          "draft" := VObj {[ "payee" := VObj {[ "name" := VStr "Ann";
                                                "email" := VStr "ann@example.org";
                                                "slug" := VStr "ann" ]} ]} ]}
       ∅ PAYEE.

(** A profile with a location, chosen on a form whose address is empty. *)
Definition profileChosen : form :=
  Form {[ "type" := VStr "INVOICE"; "description" := VStr "Design work";
          "items" := VArr [];
          "payee" := VObj {[ "id" := VStr "p1";
                             "location" := VObj {[ "country" := VStr "FR" ]} ]};
          "payeeLocation" := VObj {[ "address" := VStr ""; "country" := VNull ]} ]}
       ∅ PAYEE.

Definition agora : CreateCollectiveForm.formValues :=
  CreateCollectiveForm.FormValues "Agora Collective" "agora" "".

Definition hyphenated : CreateCollectiveForm.formValues :=
  CreateCollectiveForm.FormValues "Agora Collective" "-agora" "".

(** Coming back from the host's terms: [hostTos] is in the query. *)
Definition termsAccepted : CreateCollectiveForm.props :=
  CreateCollectiveForm.Props VUndefined VUndefined (VStr "true")
    (VObj {[ "termsUrl" := VStr "https://host.example/terms" ]}).

End Samples.

(** Membership in the literal key lists of the form. *)
Ltac solve_mem :=
  repeat intro;
  repeat match goal with
         | H : context [_ ∈ _ :: _] |- _ => rewrite elem_of_cons in H
         | H : context [_ ∈ []] |- _ => rewrite elem_of_nil in H
         end;
  rewrite ?elem_of_cons, ?elem_of_nil;
  intuition (try discriminate; try congruence).

Section Collaborators.

(** The collaborators the form delegates to; none of them is among the
    sources, and the form only relies on each returning an error map (or, for
    [flattenObjectDeep], an object). *)
Variable validateExpenseItem : obj → value → value.
Variable validatePayoutMethod : value → value.
Variable flattenObjectDeep : value → value.

(** *** The validator (lines 131-160) *)
Definition validate (expense : obj) : result obj :=
  if truthy (opt_prop (prop expense "payee") "isInvite") then
    payeeId ← member (prop expense "payee") "id";
    Ok (if truthy payeeId
        then requireFields expense [["description"]; ["payee"]; ["payee"; "id"]]
        else requireFields expense
               [["description"]; ["payee"]; ["payee"; "name"]; ["payee"; "email"]])
  else
    let errors0 :=
      requireFields expense
        [["description"]; ["payee"]; ["payoutMethod"]; ["currency"]] in
    len ← length_of (prop expense "items");
    errors1 ←
      (if gt_zero len then
         its ← array_of (prop expense "items");
         let itemsErrors := map (validateExpenseItem expense) its in
         let hasErrors := existsb (λ e, negb (isEmpty e)) itemsErrors in
         Ok (if hasErrors then <["items" := VArr itemsErrors]> errors0 else errors0)
       else Ok errors0);
    let errors2 :=
      if truthy (prop expense "payoutMethod") then
        let payoutMethodErrors := validatePayoutMethod (prop expense "payoutMethod") in
        if negb (isEmpty payoutMethodErrors)
        then <["payoutMethod" := payoutMethodErrors]> errors1
        else errors1
      else errors1 in
    Ok (if strict_eq_str (prop expense "type") expenseTypes.INVOICE
        then requireFields expense
               [["payeeLocation"; "country"]; ["payeeLocation"; "address"]] ∪ errors2
        else errors2).

(** *** Completion predicates of [ExpenseFormBody] (lines 192-200) *)

Definition hasBaseFormFieldsCompleted (f : form) : value :=
  js_and (prop (values f) "type") (prop (values f) "description").

Definition isInvite (f : form) : value :=
  opt_prop (prop (values f) "payee") "isInvite".

Definition isReceipt (f : form) : bool :=
  strict_eq_str (prop (values f) "type") expenseTypes.RECEIPT.

Definition stepOneCompleted (f : form) : value :=
  js_and (js_and (prop (values f) "payoutMethod")
           (VBool (isEmpty (flattenObjectDeep
                     (VObj (omit (errors f) ["payoutMethod"; "data"; "currency"]))))))
      (if isReceipt f then VBool true
       else js_and (opt_prop (prop (values f) "payeeLocation") "country")
                (opt_prop (prop (values f) "payeeLocation") "address")).

Definition stepTwoCompleted (f : form) : result value :=
  if truthy (isInvite f) then Ok (VBool true)
  else
    let base := js_and (stepOneCompleted f) (hasBaseFormFieldsCompleted f) in
    if truthy base
    then len ← length_of (prop (values f) "items"); Ok (VBool (gt_zero len))
    else Ok base.

(** The argument of [React.useState] (line 202). *)
Definition initialStep (f : form) : STEPS :=
  if truthy (stepOneCompleted f) then EXPENSE else PAYEE.

(** The step of the mounted form: the first render is on [initialStep], and
    its effects follow. *)
Definition mountedStep (isDraft : bool) (f : form) : result STEPS :=
  stepAfterMount isDraft (setStep (initialStep f) f).

(** [onNext] as passed to [ExpenseFormPayeeStep] (lines 311-318). *)
Definition onNext (f : form) : form :=
  let validation := validatePayoutMethod (prop (values f) "payoutMethod") in
  if isEmpty validation
  then setStep EXPENSE f
  else setErrors {[ "payoutMethod" := validation ]} f.

(** The [onNext] of the payee step as it is rendered (lines 282, 293-320):
    the card is there once a type is chosen; the placeholder has no Next,
    the sign-up step gets [() => setStep(STEPS.EXPENSE)] (line 300), and the
    payee step gets [onNext]. *)
Definition payeeStepOnNext (loading isDraft loggedInAccount : bool)
    (f : form) : option form :=
  if truthy (prop (values f) "type") then
    match payeeStep loading isDraft loggedInAccount with
    | LoadingPlaceholder => None
    | ExpenseFormPayeeSignUpStep => Some (setStep EXPENSE f)
    | ExpenseFormPayeeStep => Some (onNext f)
    end
  else None.

(** *** The step-one predicate in the spec's words

    Payout method present, error map empty apart from
    [payoutMethod.data.currency], and, for types other than RECEIPT, the
    payee location's country and address present. *)
Definition stepOneComplete_spec (f : form) : Prop :=
  truthy (prop (values f) "payoutMethod") = true ∧
  isEmpty (flattenObjectDeep
             (VObj (omit (errors f) ["payoutMethod"; "data"; "currency"]))) = true ∧
  (strict_eq_str (prop (values f) "type") expenseTypes.RECEIPT = false →
   truthy (get (VObj (values f)) ["payeeLocation"; "country"]) = true ∧
   truthy (get (VObj (values f)) ["payeeLocation"; "address"]) = true).


(** *** The rest of [ExpenseForm] and of its effects *)

(** [expenseStatus.DRAFT] and [PayoutMethodType.BANK_ACCOUNT]: the constants
    of [lib/constants] are not among the sources either. *)
Variable DRAFT : string.
Variable BANK_ACCOUNT : string.

(** [initialValues] of [ExpenseForm] (lines 580-586).  The expense is absent
    (a new expense) or an object; its own fields win over the defaults, and
    for a draft the items and the attached files are read from
    [expense.draft]. *)
Definition initialValues (collective : obj) (expense : option obj) : result obj :=
  match expense with
  | None => Ok (getDefaultExpense collective)
  | Some e =>
      let merged := e ∪ getDefaultExpense collective in
      if strict_eq_str (prop e "status") DRAFT then
        items ← member (prop e "draft") "items";
        attachedFiles ← member (prop e "draft") "attachedFiles";
        Ok (<["attachedFiles" := attachedFiles]> (<["items" := items]> merged))
      else Ok merged
  end.

(** What formik's [onSubmit] does with the values (lines 592-602): it hands
    them to the [onSubmit] prop, or turns validation on and shows the
    errors. *)
Inductive submitOutcome : Type :=
| Submitted (values : obj)
| Invalid (errors : obj).

Definition formikOnSubmit (values : obj) : result submitOutcome :=
  errors ← validate values;
  Ok (if negb (isEmpty (VObj errors)) then Invalid errors else Submitted values).

(** The effect that loads the values kept by the persister (lines 240-257).
    [formPersister] is absent, or its [loadValues()] returns a record or
    nothing. *)
Definition onPersisterLoad (shouldLoadValuesFromPersister : bool)
    (formPersister : option (option obj)) (dirty : bool)
    (collective : obj) (f : form) : form :=
  match formPersister with
  | Some loadValues =>
      if shouldLoadValuesFromPersister && negb dirty then
        match loadValues with
        | Some formValues =>
            let formValues' :=
              if strict_eq_str (opt_prop (prop formValues "payoutMethod") "type")
                               BANK_ACCOUNT
                 && negb (truthy (opt_prop (prop collective "host") "transferwise"))
              then <["payoutMethod" := VUndefined]> formValues
              else formValues in
            setValues (omitAll formValues' [["location"]; ["privateInfo"]]) f
        | None => f
        end
      else f
  | None => f
  end.

(** * Properties *)

(** ** Reading values back *)

Lemma prop_insert_eq (o : obj) (k : string) (v : value) :
  prop (<[k := v]> o) k = v.
Proof. unfold prop. by rewrite lookup_insert_eq. Qed.

Lemma prop_insert_ne (o : obj) (k k' : string) (v : value) :
  k ≠ k' → prop (<[k := v]> o) k' = prop o k'.
Proof. intros Hne. unfold prop. by rewrite lookup_insert_ne. Qed.

Lemma truthy_opt_prop_obj (v : value) (k : string) :
  truthy (opt_prop v k) = true → ∃ o, v = VObj o.
Proof. destruct v; simpl; try discriminate. eauto. Qed.

Lemma get_union_l (e1 e2 : obj) (k : string) (p : path) :
  is_Some (e1 !! k) → get (VObj (e1 ∪ e2)) (k :: p) = get (VObj e1) (k :: p).
Proof.
  intros [v Hv]. cbn [get opt_prop]. unfold prop.
  by rewrite (lookup_union_Some_l e1 e2 k v Hv), Hv.
Qed.

(** ** What [set] and [requireFields] touch *)

Lemma set_lookup_ne (o : obj) (p : path) (v : value) (k : string) :
  head p ≠ Some k → set o p v !! k = o !! k.
Proof.
  destruct p as [|k0 [|k1 p']]; simpl; intros Hne; first done.
  - rewrite lookup_insert_ne; congruence.
  - rewrite lookup_insert_ne; congruence.
Qed.

Lemma requireFields_from_lookup_ne (o acc : obj) (fields : list path) (k : string) :
  Forall (λ p, head p ≠ Some k) fields →
  foldl (λ errors field,
           if truthy (get (VObj o) field) then errors
           else set errors field requiredError) acc fields !! k = acc !! k.
Proof.
  intros Hall. revert acc.
  induction Hall as [|p fields Hp _ IH]; intros acc; simpl; first done.
  rewrite IH. destruct (truthy _); first done. by apply set_lookup_ne.
Qed.

Lemma requireFields_lookup_None (o : obj) (fields : list path) (k : string) :
  Forall (λ p, head p ≠ Some k) fields → requireFields o fields !! k = None.
Proof.
  intros Hall. unfold requireFields.
  rewrite requireFields_from_lookup_ne; [apply lookup_empty | done].
Qed.

(** The location check stores an error on the country whenever the country
    is empty, whatever the address. *)
Lemma requireFields_location (expense : obj) :
  truthy (get (VObj expense) ["payeeLocation"; "country"]) = false →
  get (VObj (requireFields expense
               [["payeeLocation"; "country"]; ["payeeLocation"; "address"]]))
      ["payeeLocation"; "country"] = requiredError
  ∧ is_Some (requireFields expense
               [["payeeLocation"; "country"]; ["payeeLocation"; "address"]]
             !! "payeeLocation").
Proof.
  intros Hc. unfold requireFields. cbn [foldl]. rewrite Hc.
  destruct (truthy (get (VObj expense) ["payeeLocation"; "address"])).
  - split; [reflexivity | eexists; reflexivity].
  - split; [reflexivity | eexists; reflexivity].
Qed.

(** The invited-payee check without an id, field by field. *)
Lemma requireFields_invitee (expense : obj) :
  truthy (prop expense "payee") = true →
  truthy (get (VObj expense) ["payee"; "email"]) = false →
  let errs := requireFields expense
                [["description"]; ["payee"]; ["payee"; "name"]; ["payee"; "email"]] in
  has_error errs ["payee"; "email"] = true
  ∧ has_error errs ["payee"; "name"]
    = negb (truthy (get (VObj expense) ["payee"; "name"])).
Proof.
  intros Hp He errs. subst errs. unfold requireFields. cbn [foldl].
  rewrite He.
  replace (get (VObj expense) ["payee"]) with (prop expense "payee") by done.
  rewrite Hp.
  destruct (truthy (get (VObj expense) ["description"]));
    destruct (truthy (get (VObj expense) ["payee"; "name"]));
    split; reflexivity.
Qed.

(** ** The validator *)

Lemma validate_of_invitee (expense : obj) :
  truthy (opt_prop (prop expense "payee") "isInvite") = true →
  validate expense =
    Ok (if truthy (get (VObj expense) ["payee"; "id"])
        then requireFields expense [["description"]; ["payee"]; ["payee"; "id"]]
        else requireFields expense
               [["description"]; ["payee"]; ["payee"; "name"]; ["payee"; "email"]]).
Proof.
  intros Hinv. unfold validate. rewrite Hinv.
  destruct (truthy_opt_prop_obj _ _ Hinv) as [o Ho].
  cbn [get opt_prop]. by rewrite Ho.
Qed.

(** Outside the invite branch the validator returns as soon as the items are
    an array, and its last step merges the location check of an invoice over
    everything collected before. *)
Lemma validate_registered_invoice (expense : obj) (its : list value) :
  truthy (opt_prop (prop expense "payee") "isInvite") = false →
  prop expense "items" = VArr its →
  strict_eq_str (prop expense "type") expenseTypes.INVOICE = true →
  ∃ collected,
    validate expense =
      Ok (requireFields expense
            [["payeeLocation"; "country"]; ["payeeLocation"; "address"]] ∪ collected).
Proof.
  intros Hinv Hits Hty. unfold validate. rewrite Hinv, Hits, Hty.
  cbn [length_of mbind result_bind gt_zero array_of].
  destruct (0 <? Z.of_nat (length its))%Z; cbn [mbind result_bind]; eauto.
Qed.

(** C10: for an invited payee the validator returns from the invite branch:
    it returns an error map, and that map has no key [payoutMethod],
    [currency], [items] or [payeeLocation], whatever those fields hold. *)
Theorem validate_invite_returns_early (expense : obj) :
  truthy (opt_prop (prop expense "payee") "isInvite") = true →
  ∃ errs, validate expense = Ok errs
    ∧ errs !! "payoutMethod" = None
    ∧ errs !! "currency" = None
    ∧ errs !! "items" = None
    ∧ errs !! "payeeLocation" = None.
Proof.
  intros Hinv. rewrite (validate_of_invitee _ Hinv).
  eexists; split; first reflexivity.
  destruct (truthy (get (VObj expense) ["payee"; "id"]));
    repeat split; apply requireFields_lookup_None;
    repeat constructor; cbn; congruence.
Qed.

(** C1, as amended: for every record of type INVOICE whose
    [payeeLocation.country] is empty or absent, whose payee is not an invited
    payee and whose items are an array, the validator returns an error map
    with an error under [payeeLocation.country]. *)
Theorem validate_invoice_requires_country (expense : obj) (its : list value) :
  strict_eq_str (prop expense "type") expenseTypes.INVOICE = true →
  truthy (get (VObj expense) ["payeeLocation"; "country"]) = false →
  truthy (opt_prop (prop expense "payee") "isInvite") = false →
  prop expense "items" = VArr its →
  ∃ errs, validate expense = Ok errs
    ∧ has_error errs ["payeeLocation"; "country"] = true.
Proof.
  intros Hty Hc Hinv Hits.
  destruct (validate_registered_invoice _ _ Hinv Hits Hty) as [collected ->].
  destruct (requireFields_location _ Hc) as [Hget Hsome].
  eexists; split; first reflexivity.
  unfold has_error. by rewrite (get_union_l _ _ _ _ Hsome), Hget.
Qed.

(** C2, as amended: for every record whose payee is invited and lacks both
    [id] and [email], the validator returns an error map with an error under
    [payee.email]; it has an error under [payee.name] exactly when the
    payee's name is empty or absent too. *)
Theorem validate_invitee_requires_name_and_email (expense : obj) :
  truthy (opt_prop (prop expense "payee") "isInvite") = true →
  truthy (get (VObj expense) ["payee"; "id"]) = false →
  truthy (get (VObj expense) ["payee"; "email"]) = false →
  ∃ errs, validate expense = Ok errs
    ∧ has_error errs ["payee"; "email"] = true
    ∧ has_error errs ["payee"; "name"]
      = negb (truthy (get (VObj expense) ["payee"; "name"])).
Proof.
  intros Hinv Hid He. rewrite (validate_of_invitee _ Hinv), Hid.
  eexists; split; first reflexivity.
  apply requireFields_invitee; last done.
  destruct (truthy_opt_prop_obj _ _ Hinv) as [o ->]. done.
Qed.

(** ** The step controller *)

Lemma truthy_js_and (a b : value) : truthy (js_and a b) = truthy a && truthy b.
Proof. unfold js_and. by destruct (truthy a) eqn:Ha. Qed.

Lemma truthy_js_or (a b : value) : truthy (js_or a b) = truthy a || truthy b.
Proof. unfold js_or. by destruct (truthy a) eqn:Ha. Qed.

Lemma stepOneCompleted_truthy (f : form) :
  truthy (stepOneCompleted f) = true ↔ stepOneComplete_spec f.
Proof.
  unfold stepOneCompleted, stepOneComplete_spec, isReceipt.
  rewrite !truthy_js_and. cbn [truthy get opt_prop].
  destruct (strict_eq_str (prop (values f) "type") expenseTypes.RECEIPT).
  - rewrite !andb_true_iff. intuition congruence.
  - rewrite truthy_js_and, !andb_true_iff. tauto.
Qed.

(** C6: with an empty items list and a payee that is not an invite, the
    step-two completion predicate evaluates to a falsy value, so the submit
    button is disabled whatever the rest of the form holds. *)
Theorem zero_items_block_submission (f : form) :
  prop (values f) "items" = VArr [] →
  truthy (isInvite f) = false →
  ∃ completed, stepTwoCompleted f = Ok completed
    ∧ truthy completed = false
    ∧ ∀ isValid, submitDisabled completed isValid = true.
Proof.
  intros Hitems Hinv. unfold stepTwoCompleted. rewrite Hinv, Hitems.
  destruct (truthy (js_and (stepOneCompleted f) (hasBaseFormFieldsCompleted f)))
    eqn:Hbase.
  - eexists; split; first reflexivity. split; first done.
    intros isValid. done.
  - eexists; split; first reflexivity. split; first done.
    intros isValid. unfold submitDisabled. by rewrite Hbase.
Qed.

(** The argument of [React.useState] is EXPENSE exactly when the step-one
    completeness predicate holds (payout method present, error map empty
    apart from [payoutMethod.data.currency], and for types other than
    RECEIPT the payee location's country and address present); otherwise it
    is PAYEE. *)
Lemma initialStep_spec (f : form) :
  (initialStep f = EXPENSE ↔ stepOneComplete_spec f)
  ∧ (initialStep f = PAYEE ↔ ¬ stepOneComplete_spec f).
Proof.
  rewrite <- stepOneCompleted_truthy. unfold initialStep.
  destruct (truthy (stepOneCompleted f)); split; split; done.
Qed.

(** The handler of lines 311-318 moves from PAYEE to EXPENSE exactly when the
    payout-method check returns an empty error map for the current payout
    method; otherwise the step stays PAYEE and the form's errors become that
    map under the key [payoutMethod].  The values are untouched and nothing
    is thrown: [onNext] is total. *)
Lemma onNext_advances_iff_payout_valid (f : form) :
  step f = PAYEE →
  (step (onNext f) = EXPENSE
   ↔ isEmpty (validatePayoutMethod (prop (values f) "payoutMethod")) = true)
  ∧ (isEmpty (validatePayoutMethod (prop (values f) "payoutMethod")) = false →
     step (onNext f) = PAYEE
     ∧ errors (onNext f)
       = {[ "payoutMethod" := validatePayoutMethod (prop (values f) "payoutMethod") ]})
  ∧ values (onNext f) = values f.
Proof.
  intros Hstep. unfold onNext.
  destruct (isEmpty (validatePayoutMethod (prop (values f) "payoutMethod")));
    cbn [setStep setErrors step errors values]; rewrite ?Hstep;
    repeat split; done.
Qed.

(** C8, as amended: on the payee step of a form that is not loading and has
    a type, Next is there.  Unless the expense is a draft opened by someone
    who is not logged in, it moves to EXPENSE exactly when the payout-method
    check returns an empty error map for the current payout method, and
    otherwise stays on PAYEE with the form's errors set to that map under the
    key [payoutMethod].  For a draft opened by someone who is not logged in
    it moves to EXPENSE whatever the check would return, and leaves the
    errors alone.  The values are untouched either way. *)
Theorem payeeStepOnNext_spec (loading isDraft loggedInAccount : bool) (f : form) :
  step f = PAYEE →
  truthy (prop (values f) "type") = true →
  loading = false →
  ∃ f', payeeStepOnNext loading isDraft loggedInAccount f = Some f'
    ∧ values f' = values f
    ∧ (isDraft && negb loggedInAccount = false →
       (step f' = EXPENSE
        ↔ isEmpty (validatePayoutMethod (prop (values f) "payoutMethod")) = true)
       ∧ (isEmpty (validatePayoutMethod (prop (values f) "payoutMethod")) = true →
          errors f' = errors f)
       ∧ (isEmpty (validatePayoutMethod (prop (values f) "payoutMethod")) = false →
          step f' = PAYEE
          ∧ errors f'
            = {[ "payoutMethod" := validatePayoutMethod (prop (values f) "payoutMethod") ]}))
    ∧ (isDraft && negb loggedInAccount = true →
       step f' = EXPENSE ∧ errors f' = errors f).
Proof.
  intros Hstep Htype ->. unfold payeeStepOnNext, payeeStep. rewrite Htype.
  destruct (isDraft && negb loggedInAccount).
  - eexists; split; first reflexivity. by repeat split.
  - eexists; split; first reflexivity. unfold onNext.
    destruct (isEmpty (validatePayoutMethod (prop (values f) "payoutMethod")));
      cbn [setStep setErrors step errors values]; rewrite ?Hstep;
      repeat split; done.
Qed.

(** ** More on the validator *)

Lemma set_non_empty (o : obj) (p : path) (v : value) : p ≠ [] → set o p v ≠ ∅.
Proof.
  destruct p as [|k [|k' p']]; first done; intros _; cbn [set];
    apply insert_non_empty.
Qed.

Lemma requireFields_from_non_empty (o acc : obj) (fields : list path) :
  Forall (λ p, p ≠ []) fields → acc ≠ ∅ →
  foldl (λ errors field,
           if truthy (get (VObj o) field) then errors
           else set errors field requiredError) acc fields ≠ ∅.
Proof.
  intros Hall. revert acc.
  induction Hall as [|p fields Hp _ IH]; intros acc Hacc; cbn [foldl]; first done.
  apply IH. destruct (truthy (get (VObj o) p)); first done.
  by apply set_non_empty.
Qed.

(** [requireFields] returns the empty map exactly when every listed field is
    filled in. *)
Lemma requireFields_empty (o : obj) (fields : list path) :
  Forall (λ p, p ≠ []) fields →
  requireFields o fields = ∅
  ↔ Forall (λ p, truthy (get (VObj o) p) = true) fields.
Proof.
  unfold requireFields. induction 1 as [|p fields Hp Hall IH]; cbn [foldl].
  - split; [constructor | done].
  - destruct (truthy (get (VObj o) p)) eqn:Ht.
    + rewrite IH. split; [by constructor | by inversion 1].
    + split.
      * intros Hempty. exfalso. revert Hempty.
        apply requireFields_from_non_empty; [done | by apply set_non_empty].
      * inversion 1; congruence.
Qed.

(** The error map of a registered payee, step by step (lines 138-159). *)
#[local] Abbreviation required_of expense :=
  (requireFields expense [["description"]; ["payee"]; ["payoutMethod"]; ["currency"]]).
#[local] Abbreviation with_items expense its errors0 :=
  (if existsb (λ e, negb (isEmpty e)) (map (validateExpenseItem expense) its)
   then <["items" := VArr (map (validateExpenseItem expense) its)]> errors0
   else errors0).
#[local] Abbreviation with_payout expense errors1 :=
  (if truthy (prop expense "payoutMethod") then
     if negb (isEmpty (validatePayoutMethod (prop expense "payoutMethod")))
     then <["payoutMethod" := validatePayoutMethod (prop expense "payoutMethod")]> errors1
     else errors1
   else errors1).
#[local] Abbreviation location_of expense :=
  (requireFields expense [["payeeLocation"; "country"]; ["payeeLocation"; "address"]]).
#[local] Abbreviation with_location expense errors2 :=
  (if strict_eq_str (prop expense "type") expenseTypes.INVOICE
   then location_of expense ∪ errors2
   else errors2).

Lemma validate_registered (expense : obj) (its : list value) :
  truthy (opt_prop (prop expense "payee") "isInvite") = false →
  prop expense "items" = VArr its →
  validate expense =
    Ok (with_location expense
          (with_payout expense (with_items expense its (required_of expense)))).
Proof.
  intros Hinv Hits. unfold validate. rewrite Hinv, Hits.
  cbn [length_of mbind result_bind gt_zero array_of].
  destruct its as [|item its']; first done.
  replace (0 <? Z.of_nat (length (item :: its')))%Z with true; first done.
  symmetry. apply Z.ltb_lt. cbn [length]. lia.
Qed.

Lemma validate_registered_inv (expense errs : obj) :
  truthy (opt_prop (prop expense "payee") "isInvite") = false →
  validate expense = Ok errs →
  ∃ errors1,
    (errors1 = required_of expense ∨ ∃ v, errors1 = <["items" := v]> (required_of expense))
    ∧ errs = with_location expense (with_payout expense errors1).
Proof.
  intros Hinv. unfold validate. rewrite Hinv.
  destruct (length_of (prop expense "items")) as [len|]; last done.
  cbn [mbind result_bind]. destruct (gt_zero len).
  - destruct (array_of (prop expense "items")) as [its|]; last done.
    cbn [mbind result_bind]. intros [= <-].
    destruct (existsb _ _); eauto 6.
  - cbn [mbind result_bind]. intros [= <-]. eauto.
Qed.

Lemma required_of_empty (expense : obj) :
  required_of expense = ∅
  ↔ truthy (prop expense "description") = true
    ∧ truthy (prop expense "payee") = true
    ∧ truthy (prop expense "payoutMethod") = true
    ∧ truthy (prop expense "currency") = true.
Proof.
  rewrite requireFields_empty by (repeat constructor; done).
  rewrite !Forall_cons, Forall_nil. cbn [get opt_prop]. tauto.
Qed.

Lemma location_of_empty (expense : obj) :
  location_of expense = ∅
  ↔ truthy (get (VObj expense) ["payeeLocation"; "country"]) = true
    ∧ truthy (get (VObj expense) ["payeeLocation"; "address"]) = true.
Proof.
  rewrite requireFields_empty by (repeat constructor; done).
  rewrite !Forall_cons, Forall_nil. tauto.
Qed.

Lemma with_location_empty (expense errors2 : obj) :
  with_location expense errors2 = ∅
  ↔ errors2 = ∅
    ∧ (strict_eq_str (prop expense "type") expenseTypes.INVOICE = true →
       location_of expense = ∅).
Proof.
  destruct (strict_eq_str (prop expense "type") expenseTypes.INVOICE).
  - split.
    + intros Hu. pose proof (map_positive_l _ _ Hu) as Hl.
      rewrite Hl, (left_id_L ∅ (∪)) in Hu. auto.
    + intros [-> ->]; last done. apply (left_id_L ∅ (∪)).
  - split; [intros ->; split; [done | discriminate] | by intros [-> _]].
Qed.

Lemma with_payout_empty (expense errors1 : obj) :
  with_payout expense errors1 = ∅
  ↔ errors1 = ∅
    ∧ (truthy (prop expense "payoutMethod") = true →
       isEmpty (validatePayoutMethod (prop expense "payoutMethod")) = true).
Proof.
  destruct (truthy (prop expense "payoutMethod")).
  - destruct (isEmpty (validatePayoutMethod (prop expense "payoutMethod"))); cbn [negb].
    + split; [by intros -> | by intros [-> _]].
    + split; [by intros ?%insert_non_empty | intros [_ Hc]; by specialize (Hc eq_refl)].
  - split; [intros ->; split; [done | discriminate] | by intros [-> _]].
Qed.

Lemma no_item_errors (expense : obj) (its : list value) :
  existsb (λ e, negb (isEmpty e)) (map (validateExpenseItem expense) its) = false
  ↔ Forall (λ item, isEmpty (validateExpenseItem expense item) = true) its.
Proof.
  induction its as [|item its IH]; cbn [map existsb].
  - split; [constructor | done].
  - rewrite Forall_cons, orb_false_iff, IH, negb_false_iff. done.
Qed.

(** X1: a record of a registered payee is accepted exactly when it is
    complete.  For every record whose payee is not an invitee and whose
    items are an array, the validator returns the empty error map if and
    only if description, payee, payout method and currency are filled in, no
    item and no payout method has errors of its own, and, for an invoice,
    the payee's country and address are filled in. *)
Theorem validate_registered_accepts (expense : obj) (its : list value) :
  truthy (opt_prop (prop expense "payee") "isInvite") = false →
  prop expense "items" = VArr its →
  validate expense = Ok ∅
  ↔ truthy (prop expense "description") = true
    ∧ truthy (prop expense "payee") = true
    ∧ truthy (prop expense "payoutMethod") = true
    ∧ truthy (prop expense "currency") = true
    ∧ Forall (λ item, isEmpty (validateExpenseItem expense item) = true) its
    ∧ isEmpty (validatePayoutMethod (prop expense "payoutMethod")) = true
    ∧ (strict_eq_str (prop expense "type") expenseTypes.INVOICE = true →
       truthy (get (VObj expense) ["payeeLocation"; "country"]) = true
       ∧ truthy (get (VObj expense) ["payeeLocation"; "address"]) = true).
Proof.
  intros Hinv Hits. rewrite (validate_registered _ _ Hinv Hits).
  rewrite <- location_of_empty, <- no_item_errors.
  split.
  - intros [= Hempty]. apply with_location_empty in Hempty as [Hempty Hloc].
    apply with_payout_empty in Hempty as [Hempty Hpay].
    destruct (existsb _ _); first by apply insert_non_empty in Hempty.
    apply required_of_empty in Hempty as (? & ? & Hpm & ?). auto 10.
  - intros (Hd & Hp & Hpm & Hc & -> & Hpay & Hloc). f_equal.
    apply with_location_empty. split; last done.
    apply with_payout_empty. split; last done.
    by apply required_of_empty.
Qed.

(** X2: an invitation is accepted exactly when it has a description and
    names the invitee.  For every record whose payee is an invitee, the
    validator returns the empty error map if and only if the description is
    filled in and the payee has an id, or both a name and an email. *)
Theorem validate_invitee_accepts (expense : obj) :
  truthy (opt_prop (prop expense "payee") "isInvite") = true →
  validate expense = Ok ∅
  ↔ truthy (prop expense "description") = true
    ∧ (truthy (get (VObj expense) ["payee"; "id"]) = true
       ∨ truthy (get (VObj expense) ["payee"; "name"]) = true
         ∧ truthy (get (VObj expense) ["payee"; "email"]) = true).
Proof.
  intros Hinv. rewrite (validate_of_invitee _ Hinv).
  assert (Hpayee : truthy (get (VObj expense) ["payee"]) = true).
  { destruct (truthy_opt_prop_obj _ _ Hinv) as [o Ho]. cbn [get opt_prop]. by rewrite Ho. }
  destruct (truthy (get (VObj expense) ["payee"; "id"])) eqn:Hid.
  - split.
    + intros [= Hempty]. apply requireFields_empty in Hempty;
        last by (repeat constructor).
      rewrite !Forall_cons in Hempty. cbn [get opt_prop] in Hempty. tauto.
    + intros [Hd _]. f_equal. apply requireFields_empty; first by (repeat constructor).
      repeat constructor; done.
  - split.
    + intros [= Hempty]. apply requireFields_empty in Hempty;
        last by (repeat constructor).
      rewrite !Forall_cons in Hempty. cbn [get opt_prop] in Hempty. tauto.
    + intros [Hd [? | [Hn He]]]; first done. f_equal.
      apply requireFields_empty; first by (repeat constructor).
      repeat constructor; done.
Qed.

Lemma validate_accepts_description_payee (expense : obj) :
  validate expense = Ok ∅ →
  truthy (prop expense "description") = true
  ∧ nullish (prop expense "payee") = false.
Proof.
  destruct (truthy (opt_prop (prop expense "payee") "isInvite")) eqn:Hinv.
  - intros Hv. apply (validate_invitee_accepts _ Hinv) in Hv as [Hd _].
    destruct (truthy_opt_prop_obj _ _ Hinv) as [o ->]. done.
  - intros (errors1 & Herrors1 & Hempty)%validate_registered_inv; last done.
    symmetry in Hempty. apply with_location_empty in Hempty as [Hempty _].
    apply with_payout_empty in Hempty as [-> _].
    destruct Herrors1 as [Hreq | [v Hins]].
    + symmetry in Hreq. apply required_of_empty in Hreq as (Hd & Hp & _).
      split; first done. by destruct (prop expense "payee").
    + symmetry in Hins. by apply insert_non_empty in Hins.
Qed.

(** X3: only validated values reach the submit callback.  Whenever formik's
    [onSubmit] hands values to the [onSubmit] prop, they are the form's
    values unchanged, the validator has returned the empty map for them,
    their description is filled in and their payee is neither [null] nor
    [undefined]: the read of [payee.id] in the sanitizer cannot fail on
    them. *)
Theorem formikOnSubmit_submits_valid_values (values submitted : obj) :
  formikOnSubmit values = Ok (Submitted submitted) →
  submitted = values
  ∧ validate values = Ok ∅
  ∧ truthy (prop values "description") = true
  ∧ nullish (prop values "payee") = false.
Proof.
  unfold formikOnSubmit.
  destruct (validate values) as [errs|] eqn:Hv; last done.
  cbn [mbind result_bind isEmpty]. case_bool_decide as Hempty; last done.
  cbn [negb]. intros [= <-]. subst errs.
  split; first done. split; first done.
  by apply validate_accepts_description_payee.
Qed.

Lemma required_of_lookup_other (expense : obj) (k : string) :
  k ∉ ["description"; "payee"; "payoutMethod"; "currency"] →
  required_of expense !! k = None.
Proof.
  intros Hk. apply requireFields_lookup_None.
  repeat constructor; cbn [head]; intros [= <-]; apply Hk; solve_mem.
Qed.

Lemma location_of_lookup_other (expense : obj) (k : string) :
  k ≠ "payeeLocation" → location_of expense !! k = None.
Proof.
  intros Hk. apply requireFields_lookup_None.
  repeat constructor; cbn [head]; congruence.
Qed.

Lemma with_location_lookup_other (expense errors2 : obj) (k : string) :
  k ≠ "payeeLocation" → with_location expense errors2 !! k = errors2 !! k.
Proof.
  intros Hk. destruct (strict_eq_str _ _); last done.
  by rewrite lookup_union_r by by apply location_of_lookup_other.
Qed.

(** X4: the item errors are aligned with the items.  For every record of a
    registered payee whose items are an array, the error map has no [items]
    key when no item has errors, and otherwise holds under [items] the array
    of the item validator's results, one per item and in the order of the
    items, empty results included. *)
Theorem validate_items_aligned (expense : obj) (its : list value) :
  truthy (opt_prop (prop expense "payee") "isInvite") = false →
  prop expense "items" = VArr its →
  ∃ errs, validate expense = Ok errs
    ∧ (Forall (λ item, isEmpty (validateExpenseItem expense item) = true) its →
       errs !! "items" = None)
    ∧ (Exists (λ item, isEmpty (validateExpenseItem expense item) = false) its →
       ∃ itemsErrors, errs !! "items" = Some (VArr itemsErrors)
         ∧ length itemsErrors = length its
         ∧ ∀ i item, its !! i = Some item →
             itemsErrors !! i = Some (validateExpenseItem expense item)).
Proof.
  intros Hinv Hits. rewrite (validate_registered _ _ Hinv Hits).
  eexists; split; first reflexivity.
  rewrite with_location_lookup_other by done.
  assert (Hpay : ∀ errors1 : obj,
            with_payout expense errors1 !! "items" = errors1 !! "items").
  { intros errors1. destruct (truthy (prop expense "payoutMethod")); last done.
    destruct (negb _); last done. by rewrite lookup_insert_ne. }
  rewrite Hpay. split.
  - intros Hall%no_item_errors. rewrite Hall.
    apply required_of_lookup_other. solve_mem.
  - intros Hex.
    assert (existsb (λ e, negb (isEmpty e)) (map (validateExpenseItem expense) its) = true)
      as ->.
    { apply not_false_iff_true. intros Hall%no_item_errors.
      apply Exists_exists in Hex as (item & Hin & Hitem).
      rewrite Forall_forall in Hall. specialize (Hall item Hin). congruence. }
    eexists. split; first by rewrite lookup_insert_eq.
    split; first by rewrite length_map.
    intros i item Hi. by rewrite list_lookup_fmap, Hi.
Qed.

Lemma location_of_lookup (expense : obj) :
  is_Some (location_of expense !! "payeeLocation")
  ↔ truthy (get (VObj expense) ["payeeLocation"; "country"]) = false
    ∨ truthy (get (VObj expense) ["payeeLocation"; "address"]) = false.
Proof.
  unfold requireFields. cbn [foldl].
  destruct (truthy (get (VObj expense) ["payeeLocation"; "country"]));
    destruct (truthy (get (VObj expense) ["payeeLocation"; "address"])).
  - rewrite lookup_empty. split; [by intros [? ?] | by intros [? | ?]].
  - split; [by right | intros _; by eexists].
  - split; [by left | intros _; by eexists].
  - split; [by left | intros _; by eexists].
Qed.

(** X5: which records get a location error.  For every record on which the
    validator returns (an invitee's, or one whose items are an array), the
    error map has a [payeeLocation] key if and only if the payee is not an
    invitee, the type is INVOICE, and the payee's country or address is
    empty. *)
Theorem validate_location_errors (expense : obj) :
  truthy (opt_prop (prop expense "payee") "isInvite") = true
  ∨ (∃ its, prop expense "items" = VArr its) →
  ∃ errs, validate expense = Ok errs
    ∧ (is_Some (errs !! "payeeLocation")
       ↔ truthy (opt_prop (prop expense "payee") "isInvite") = false
         ∧ strict_eq_str (prop expense "type") expenseTypes.INVOICE = true
         ∧ (truthy (get (VObj expense) ["payeeLocation"; "country"]) = false
            ∨ truthy (get (VObj expense) ["payeeLocation"; "address"]) = false)).
Proof.
  destruct (truthy (opt_prop (prop expense "payee") "isInvite")) eqn:Hinv.
  - intros _. rewrite (validate_of_invitee _ Hinv).
    eexists; split; first reflexivity.
    assert (∀ fields, Forall (λ p, head p ≠ Some "payeeLocation") fields →
              ¬ is_Some (requireFields expense fields !! "payeeLocation")) as Hnone.
    { intros fields Hf. rewrite (requireFields_lookup_None _ _ _ Hf). by intros [? ?]. }
    split; last by intros [? _].
    intros Hsome. exfalso. revert Hsome.
    destruct (truthy (get (VObj expense) ["payee"; "id"]));
      apply Hnone; repeat constructor; cbn [head]; congruence.
  - intros [Habs | [its Hits]]; first done.
    rewrite (validate_registered _ _ Hinv Hits).
    eexists; split; first reflexivity.
    assert (Hrest : with_payout expense (with_items expense its (required_of expense))
                    !! "payeeLocation" = None).
    { destruct (truthy (prop expense "payoutMethod"));
        [destruct (negb _) |]; destruct (existsb _ _);
        rewrite ?lookup_insert_ne by done;
        apply required_of_lookup_other; solve_mem. }
    destruct (strict_eq_str (prop expense "type") expenseTypes.INVOICE).
    + rewrite <- location_of_lookup.
      rewrite lookup_union, Hrest, (right_id_L None union). tauto.
    + rewrite Hrest. split; [by intros [? ?] | by intros (_ & ? & _)].
Qed.

Lemma required_of_payoutMethod (expense : obj) :
  required_of expense !! "payoutMethod"
  = if truthy (prop expense "payoutMethod") then None else Some requiredError.
Proof.
  unfold requireFields. cbn [foldl get opt_prop].
  destruct (truthy (prop expense "description")), (truthy (prop expense "payee")),
    (truthy (prop expense "payoutMethod")), (truthy (prop expense "currency"));
    reflexivity.
Qed.

(** X6: what is reported on the payout method.  For every record of a
    registered payee whose items are an array: a missing payout method is
    reported as a required field and the payout-method validator is not
    consulted; a payout method that is present is reported with exactly what
    that validator returns, and not at all when it returns an empty map. *)
Theorem validate_payoutMethod_errors (expense : obj) (its : list value) :
  truthy (opt_prop (prop expense "payee") "isInvite") = false →
  prop expense "items" = VArr its →
  ∃ errs, validate expense = Ok errs
    ∧ errs !! "payoutMethod"
      = if truthy (prop expense "payoutMethod") then
          if isEmpty (validatePayoutMethod (prop expense "payoutMethod")) then None
          else Some (validatePayoutMethod (prop expense "payoutMethod"))
        else Some requiredError.
Proof.
  intros Hinv Hits. rewrite (validate_registered _ _ Hinv Hits).
  eexists; split; first reflexivity.
  rewrite with_location_lookup_other by done.
  assert (Hitems : with_items expense its (required_of expense) !! "payoutMethod"
                   = required_of expense !! "payoutMethod").
  { destruct (existsb _ _); last done. by rewrite lookup_insert_ne. }
  pose proof (required_of_payoutMethod expense) as Hreq.
  destruct (truthy (prop expense "payoutMethod")).
  - destruct (isEmpty (validatePayoutMethod (prop expense "payoutMethod"))); cbn [negb].
    + by rewrite Hitems.
    + by rewrite lookup_insert_eq.
  - by rewrite Hitems.
Qed.

(** ** The initial values and the persisted values *)

Lemma stepOneCompleted_needs_payoutMethod (f : form) :
  truthy (prop (values f) "payoutMethod") = false →
  initialStep f = PAYEE.
Proof.
  intros Hpm. unfold initialStep, stepOneCompleted.
  by rewrite !truthy_js_and, Hpm.
Qed.

(** X7: where a form without a payout method opens.  For a new expense, and
    for every expense that is not a draft and has no payout method of its
    own, the initial values exist and the form opens on the PAYEE step,
    whatever the collective and the error map. *)
Theorem initialValues_open_on_payee (collective : obj) (expense : option obj) :
  from_option (λ e, strict_eq_str (prop e "status") DRAFT) false expense = false →
  truthy (from_option (λ e, prop e "payoutMethod") VUndefined expense) = false →
  ∃ v, initialValues collective expense = Ok v
    ∧ ∀ errs s, initialStep (Form v errs s) = PAYEE.
Proof.
  destruct expense as [e|]; cbn [from_option initialValues].
  - intros -> Hpm. eexists; split; first reflexivity.
    intros errs s. apply stepOneCompleted_needs_payoutMethod. cbn [values].
    unfold prop in *. rewrite lookup_union.
    destruct (e !! "payoutMethod") as [pm|]; last done.
    by rewrite (union_Some_l pm).
  - intros _ _. eexists; split; first reflexivity.
    intros errs s. by apply stepOneCompleted_needs_payoutMethod.
Qed.

(** X8: the initial values of a draft.  For every expense whose status is
    DRAFT: when [expense.draft] is [null] or [undefined], computing the
    initial values throws; otherwise the initial items and attached files
    are those of [expense.draft], whatever the expense's own are, and every
    other field is the expense's own or else the default. *)
Theorem initialValues_of_draft (collective e : obj) :
  strict_eq_str (prop e "status") DRAFT = true →
  (nullish (prop e "draft") = true →
   initialValues collective (Some e) = TypeError)
  ∧ (nullish (prop e "draft") = false →
     ∃ v, initialValues collective (Some e) = Ok v
       ∧ v !! "items" = Some (opt_prop (prop e "draft") "items")
       ∧ v !! "attachedFiles" = Some (opt_prop (prop e "draft") "attachedFiles")
       ∧ ∀ k, k ≠ "items" → k ≠ "attachedFiles" →
           v !! k = (e ∪ getDefaultExpense collective) !! k).
Proof.
  intros Hdraft. unfold initialValues, member. rewrite Hdraft.
  split; intros ->; first done.
  cbn [mbind result_bind]. eexists; split; first reflexivity.
  split; first by rewrite lookup_insert_ne, lookup_insert_eq.
  split; first by rewrite lookup_insert_eq.
  intros k Hi Ha. by rewrite !lookup_insert_ne.
Qed.

Lemma omitAll_deprecated (o : obj) (k : string) :
  omitAll o [["location"]; ["privateInfo"]] !! k
  = if decide (k ∈ ["location"; "privateInfo"]) then None else o !! k.
Proof using.
  clear validateExpenseItem validatePayoutMethod flattenObjectDeep DRAFT BANK_ACCOUNT.
  unfold omitAll. cbn [foldl omit]. case_decide as Hk.
  - apply elem_of_cons in Hk as [-> | Hk].
    + by rewrite lookup_delete_ne, lookup_delete_eq.
    + apply list_elem_of_singleton in Hk as ->. by rewrite lookup_delete_eq.
  - rewrite !lookup_delete_ne; first done; intros <-; apply Hk; solve_mem.
Qed.

(** X9: what is loaded from the persister.  When the effect loads a record,
    the form's values become that record without its [location] and
    [privateInfo] fields; its payout method is reset to [undefined] exactly
    when it is a bank account and the host has no TransferWise, and every
    other field is kept.  When the form is dirty, loading is off, there is
    no persister or nothing is stored, the form is left as it is. *)
Theorem onPersisterLoad_values (shouldLoad dirty : bool)
    (formPersister : option (option obj)) (collective : obj) (f : form) :
  (∀ formValues,
     shouldLoad = true → dirty = false → formPersister = Some (Some formValues) →
     let v := values (onPersisterLoad shouldLoad formPersister dirty collective f) in
     v !! "location" = None
     ∧ v !! "privateInfo" = None
     ∧ v !! "payoutMethod"
       = (if strict_eq_str (opt_prop (prop formValues "payoutMethod") "type") BANK_ACCOUNT
             && negb (truthy (opt_prop (prop collective "host") "transferwise"))
          then Some VUndefined
          else formValues !! "payoutMethod")
     ∧ (∀ k, k ∉ ["location"; "privateInfo"; "payoutMethod"] →
          v !! k = formValues !! k)
     ∧ step (onPersisterLoad shouldLoad formPersister dirty collective f) = step f)
  ∧ (shouldLoad = false ∨ dirty = true ∨ formPersister = None
     ∨ formPersister = Some None →
     onPersisterLoad shouldLoad formPersister dirty collective f = f).
Proof using.
  clear validateExpenseItem validatePayoutMethod flattenObjectDeep DRAFT.
  split.
  - intros formValues -> -> ->. cbn [onPersisterLoad andb negb setValues values step].
    rewrite !omitAll_deprecated.
    split; first by rewrite decide_True by solve_mem.
    split; first by rewrite decide_True by solve_mem.
    split.
    + rewrite decide_False by solve_mem.
      destruct (_ && _); [by rewrite lookup_insert_eq | done].
    + split; last done. intros k Hk. rewrite omitAll_deprecated.
      rewrite decide_False by (intros Hin; apply Hk; revert Hin; solve_mem).
      destruct (_ && _); last done.
      rewrite lookup_insert_ne; first done. intros <-. apply Hk. solve_mem.
  - unfold onPersisterLoad. intros [-> | [-> | [-> | ->]]]; try done.
    + by destruct formPersister as [[?|]|].
    + destruct formPersister as [[?|]|]; try done; by destruct shouldLoad.
    + by destruct (shouldLoad && negb dirty).
Qed.

(** ** When the form can be submitted *)

(** X21: when the submit button is enabled.  For an invitee the step-two
    predicate is [true] whatever else the form holds.  For any other payee
    with an array of items it is truthy if and only if step one is complete
    (in the words of the spec), type and description are filled in and
    there is at least one item; the button is enabled exactly when, on top
    of that, formik finds the form valid. *)
Theorem stepTwoCompleted_enables_submit (f : form) :
  (truthy (isInvite f) = true → stepTwoCompleted f = Ok (VBool true))
  ∧ (∀ its, truthy (isInvite f) = false → prop (values f) "items" = VArr its →
     ∃ completed, stepTwoCompleted f = Ok completed
       ∧ (truthy completed = true
          ↔ stepOneComplete_spec f
            ∧ truthy (prop (values f) "type") = true
            ∧ truthy (prop (values f) "description") = true
            ∧ its ≠ [])
       ∧ ∀ isValid,
           submitDisabled completed isValid = false
           ↔ truthy completed = true ∧ isValid = true).
Proof.
  unfold stepTwoCompleted. split; first by intros ->.
  intros its -> Hits. rewrite Hits.
  assert (Hdisabled : ∀ completed isValid,
            submitDisabled completed isValid = false
            ↔ truthy completed = true ∧ isValid = true).
  { intros completed isValid. unfold submitDisabled.
    rewrite orb_false_iff, !negb_false_iff. done. }
  pose proof (stepOneCompleted_truthy f) as Hone.
  destruct (truthy (js_and (stepOneCompleted f) (hasBaseFormFieldsCompleted f)))
    eqn:Hbase; cbn [length_of mbind result_bind];
    (eexists; split; [reflexivity |]); (split; [| by apply Hdisabled]);
    unfold hasBaseFormFieldsCompleted in Hbase;
    rewrite !truthy_js_and in Hbase.
  - apply andb_true_iff in Hbase as [Hs Hb]. apply andb_true_iff in Hb as [Ht Hd].
    cbn [truthy gt_zero]. rewrite Z.ltb_lt. split.
    + intros Hlen. split; first by apply Hone.
      split; first done. split; first done.
      intros ->. cbn in Hlen. lia.
    + intros (_ & _ & _ & Hne). destruct its; [done | cbn [length]; lia].
  - unfold hasBaseFormFieldsCompleted. rewrite !truthy_js_and, Hbase.
    split; first done.
    intros (Hs%Hone & Ht & Hd & _). by rewrite Hs, Ht, Hd in Hbase.
Qed.

End Collaborators.

(** ** The effects on the payee *)

(** "Back" returns to the payee step and drops an invited payee. *)
Lemma onBack_clears_invitee (f : form) :
  step (onBack f) = PAYEE
  ∧ (truthy (opt_prop (prop (values f) "payee") "isInvite") = true →
     prop (values (onBack f)) "payee" = VNull).
Proof.
  unfold onBack. split.
  - by destruct (truthy _).
  - intros ->. apply prop_insert_eq.
Qed.


(** C4, as amended: whenever the type changes the step is set to PAYEE, for
    every form and for drafts too; an invited payee is set to [null] when the
    expense is not a draft, and for a draft the values are left as they
    are. *)
Theorem onTypeChange_resets_step (isDraft : bool) (f : form) :
  step (onTypeChange isDraft f) = PAYEE
  ∧ errors (onTypeChange isDraft f) = errors f
  ∧ (isDraft = false →
     truthy (opt_prop (prop (values f) "payee") "isInvite") = true →
     values (onTypeChange isDraft f) = <["payee" := VNull]> (values f))
  ∧ (isDraft = true → values (onTypeChange isDraft f) = values f)
  ∧ (truthy (opt_prop (prop (values f) "payee") "isInvite") = false →
     values (onTypeChange isDraft f) = values f).
Proof.
  unfold onTypeChange.
  destruct isDraft, (truthy (opt_prop (prop (values f) "payee") "isInvite"));
    repeat split; done.
Qed.

(** ** [pick] *)

Lemma pick_lookup (v : value) (keys : list string) (k : string) :
  pick v keys !! k = if decide (k ∈ keys) then own_prop v k else None.
Proof.
  destruct v; cbn [pick own_prop]; try (rewrite lookup_empty; by case_decide).
  rewrite map_lookup_filter. destruct (o !! k) as [x|]; cbn.
  - case_decide.
    + by rewrite option_guard_True.
    + by rewrite option_guard_False.
  - by case_decide.
Qed.

Lemma prop_pick_in (v : value) (keys : list string) (k : string) :
  k ∈ keys → prop (pick v keys) k = default VUndefined (own_prop v k).
Proof. intros Hk. unfold prop. by rewrite pick_lookup, decide_True. Qed.

Lemma prop_pick_not_in (v : value) (keys : list string) (k : string) :
  k ∉ keys → prop (pick v keys) k = VUndefined.
Proof. intros Hk. unfold prop. by rewrite pick_lookup, decide_False. Qed.

Lemma pick_pick (v : value) (keys keys' : list string) :
  keys ⊆ keys' → pick (VObj (pick v keys)) keys' = pick v keys.
Proof.
  intros Hsub. apply map_eq. intros k.
  rewrite pick_lookup. cbn [own_prop]. rewrite pick_lookup.
  repeat case_decide; try done. exfalso. auto.
Qed.

Lemma pick_insert_other (o : obj) (keys : list string) (k : string) (v : value) :
  k ∉ keys → pick (VObj (<[k := v]> o)) keys = pick (VObj o) keys.
Proof. intros Hk. cbn [pick]. by apply map_filter_insert_not. Qed.

(** ** [mapR] *)

Lemma mapR_Ok {A B : Type} (f : A → result B) (l : list A) (l' : list B) :
  mapR f l = Ok l' ↔ Forall2 (λ x y, f x = Ok y) l l'.
Proof.
  revert l'. induction l as [|x l IH]; intros l'; cbn [mapR].
  - split.
    + intros [= <-]. constructor.
    + by intros ->%Forall2_nil_inv_l.
  - split.
    + destruct (f x) as [y|] eqn:Hx; cbn; last done.
      destruct (mapR f l) as [ys|] eqn:Hl; cbn; last done.
      intros [= <-]. constructor; first done. by apply IH.
    + intros (y & ys & Hx & Hl & ->)%Forall2_cons_inv_l.
      rewrite Hx. cbn. apply IH in Hl. rewrite Hl. done.
Qed.

Lemma mapR_defined {A B : Type} (f : A → result B) (l : list A) :
  Forall (λ x, ∃ y, f x = Ok y) l → ∃ l', mapR f l = Ok l'.
Proof.
  induction 1 as [|x l [y Hx] _ [ys Hl]]; cbn [mapR]; first by eauto.
  rewrite Hx. cbn. rewrite Hl. cbn. eauto.
Qed.

(** ** The submission sanitizer *)

(** The three parts of [prepareExpenseForSubmit] that can throw, and the
    record it assembles from them. *)
#[local] Abbreviation isInvoice_of r :=
  (strict_eq_str (prop r "type") expenseTypes.INVOICE).
#[local] Abbreviation isFundingRequest_of r :=
  (strict_eq_str (prop r "type") expenseTypes.FUNDING_REQUEST).
#[local] Abbreviation isSignUp_of r :=
  (truthy (js_or (opt_prop (prop r "payee") "isNewUser")
                 (opt_prop (prop r "payee") "isInvite"))).
#[local] Abbreviation payee_of r :=
  (if isSignUp_of r
   then Ok (pick (prop r "payee") ["name"; "email"; "organization"; "newsletterOptIn"])
   else payeeId ← member (prop r "payee") "id";
        Ok {[ (if is_string (opt_prop (prop r "payee") "id") then "id" else "legacyId")
              := payeeId ]}).
#[local] Abbreviation files_of r :=
  (if isInvoice_of r
   then if nullish (prop r "attachedFiles") then Ok VUndefined
        else files ← array_of (prop r "attachedFiles");
             Ok (VArr (map (λ file, VObj (pick file ["id"; "url"])) files))
   else Ok (VArr [])).
#[local] Abbreviation item_of r :=
  (λ item, isNew ← member item "__isNew";
           Ok (VObj (pick item (item_keys (truthy isNew) (isInvoice_of r)
                                          (isFundingRequest_of r))))).
#[local] Abbreviation top_keys :=
  ["id"; "description"; "longDescription"; "type"; "privateMessage";
   "invoiceInfo"; "tags"].
#[local] Abbreviation assemble r payee files items :=
  (<["items" := VArr items]>
   (<["attachedFiles" := files]>
   (<["payeeLocation" :=
        if isInvoice_of r
        then VObj (pick (prop r "payeeLocation") ["address"; "country"])
        else VNull]>
   (<["payoutMethod" :=
        VObj (pick (prop r "payoutMethod") ["id"; "name"; "data"; "isSaved"; "type"])]>
   (<["payee" := VObj payee]> (pick (VObj r) top_keys)))))).

Lemma prepareExpenseForSubmit_eq (r : obj) :
  prepareExpenseForSubmit r =
    (payee ← payee_of r;
     files ← files_of r;
     items ← (its ← array_of (prop r "items"); mapR (item_of r) its);
     Ok (assemble r payee files items)).
Proof. reflexivity. Qed.

Lemma prepareExpenseForSubmit_Ok (r payee : obj) (files : value) (its items : list value) :
  payee_of r = Ok payee →
  files_of r = Ok files →
  prop r "items" = VArr its →
  mapR (item_of r) its = Ok items →
  prepareExpenseForSubmit r = Ok (assemble r payee files items).
Proof.
  intros Hp Hf Hits Hi. rewrite prepareExpenseForSubmit_eq, Hp, Hf, Hits.
  cbn [mbind result_bind array_of]. by rewrite Hi.
Qed.

Lemma prepareExpenseForSubmit_inv (r out : obj) :
  prepareExpenseForSubmit r = Ok out →
  ∃ payee files its items,
    payee_of r = Ok payee
    ∧ files_of r = Ok files
    ∧ prop r "items" = VArr its
    ∧ mapR (item_of r) its = Ok items
    ∧ out = assemble r payee files items.
Proof.
  rewrite prepareExpenseForSubmit_eq.
  destruct (payee_of r) as [payee|] eqn:Hp; last done.
  destruct (files_of r) as [files|] eqn:Hf; last done.
  destruct (prop r "items") as [| | | | |its|] eqn:Hits; try done.
  cbn [mbind result_bind array_of].
  destruct (mapR (item_of r) its) as [items|] eqn:Hi; last done.
  intros [= <-]. by exists payee, files, its, items.
Qed.

Lemma item_of_submitted (r : obj) (item out : value) :
  item_of r item = Ok out →
  submitted_item (isInvoice_of r) (isFundingRequest_of r) item out.
Proof.
  unfold member. destruct (nullish item); first done.
  cbn [mbind result_bind]. intros [= <-].
  eexists; split; first reflexivity.
  destruct (truthy (opt_prop item "__isNew")), (isInvoice_of r), (isFundingRequest_of r);
    cbn [item_keys app orb];
    (repeat split;
     [ by rewrite pick_lookup
     | by rewrite pick_lookup
     | by rewrite pick_lookup
     | intros k Hk; rewrite pick_lookup; rewrite decide_True; [done | solve_mem]
     | intros k; rewrite pick_lookup; case_decide; [solve_mem | by intros [? [=]]] ]).
Qed.

Lemma item_keys_no_isNew (isNew isInvoice isFundingRequest : bool) :
  "__isNew" ∉ item_keys isNew isInvoice isFundingRequest.
Proof.
  destruct isNew, isInvoice, isFundingRequest; cbn [item_keys app orb]; solve_mem.
Qed.

Lemma item_keys_not_new (isNew isInvoice isFundingRequest : bool) :
  item_keys isNew isInvoice isFundingRequest
  ⊆ item_keys false isInvoice isFundingRequest.
Proof.
  destruct isNew, isInvoice, isFundingRequest; cbn [item_keys app orb]; solve_mem.
Qed.

(** A sanitized item is left as it is by a second pass over a record of the
    same type. *)
Lemma item_of_again (r r' : obj) (item out : value) :
  prop r' "type" = prop r "type" →
  item_of r item = Ok out → item_of r' out = Ok out.
Proof.
  intros Hty. unfold member. destruct (nullish item); first done.
  cbn [mbind result_bind]. intros [= <-]. cbn [nullish opt_prop].
  rewrite Hty, prop_pick_not_in by apply item_keys_no_isNew.
  cbn [mbind result_bind truthy]. do 2 f_equal. apply pick_pick, item_keys_not_new.
Qed.

Lemma mapR_again {A : Type} (f g : A → result A) (l l' : list A) :
  (∀ x y, f x = Ok y → g y = Ok y) → mapR f l = Ok l' → mapR g l' = Ok l'.
Proof.
  intros Hfg Hl. apply mapR_Ok in Hl. apply mapR_Ok.
  induction Hl; constructor; eauto.
Qed.

(** C9: for every record whose payee is [null] or [undefined] (or absent),
    the sanitizer throws: the read of [payee.id] in the branch for registered
    payees is unguarded. *)
Theorem prepareExpenseForSubmit_needs_payee (expenseData : obj) :
  nullish (prop expenseData "payee") = true →
  prepareExpenseForSubmit expenseData = TypeError.
Proof.
  intros Hp. rewrite prepareExpenseForSubmit_eq.
  by destruct (prop expenseData "payee").
Qed.

Lemma payee_of_defined (r : obj) :
  isSignUp_of r || negb (nullish (prop r "payee")) = true →
  payee_of r =
    Ok (if isSignUp_of r
        then pick (prop r "payee") ["name"; "email"; "organization"; "newsletterOptIn"]
        else {[ (if is_string (opt_prop (prop r "payee") "id") then "id" else "legacyId")
                := opt_prop (prop r "payee") "id" ]}).
Proof.
  destruct (isSignUp_of r); first done.
  cbn [orb]. unfold member. by destruct (nullish (prop r "payee")).
Qed.

Lemma files_of_defined (r : obj) :
  (if isInvoice_of r
   then match prop r "attachedFiles" with
        | VUndefined | VNull | VArr _ => true
        | _ => false
        end
   else true) = true →
  ∃ files, files_of r = Ok files.
Proof.
  destruct (isInvoice_of r); last by eauto.
  destruct (prop r "attachedFiles"); try done; cbn; eauto.
Qed.

Lemma items_of_defined (r : obj) (its : list value) :
  forallb (λ item, negb (nullish item)) its = true →
  ∃ items, mapR (item_of r) its = Ok items.
Proof.
  intros Hall. apply mapR_defined.
  apply Forall_forall. intros item Hin%list_elem_of_In.
  rewrite forallb_forall in Hall. apply Hall in Hin.
  unfold member. destruct (nullish item); first done.
  cbn [mbind result_bind]. eauto.
Qed.

(** [sanitizable] is exactly the domain of the sanitizer. *)
Lemma prepareExpenseForSubmit_defined (r : obj) :
  (∃ out, prepareExpenseForSubmit r = Ok out) ↔ sanitizable r = true.
Proof.
  unfold sanitizable. rewrite !andb_true_iff. split.
  - intros [out (payee & files & its & items & Hp & Hf & Hits & Hi & _)
              %prepareExpenseForSubmit_inv].
    rewrite Hits. repeat split.
    + destruct (isSignUp_of r); first done.
      unfold member in Hp. by destruct (nullish (prop r "payee")).
    + destruct (isInvoice_of r); last done.
      by destruct (prop r "attachedFiles").
    + apply mapR_Ok in Hi. clear Hits. induction Hi as [|item out' its items Hitem _ IH]; first done.
      cbn [forallb]. rewrite IH, andb_true_r.
      unfold member in Hitem. by destruct (nullish item).
  - intros [[Hp Hf] Hi].
    apply payee_of_defined in Hp. apply files_of_defined in Hf as [files Hf].
    destruct (prop r "items") as [| | | | |its|] eqn:Hits; try done.
    destruct (items_of_defined r its Hi) as [items Hitems].
    eexists. by apply (prepareExpenseForSubmit_Ok _ _ _ _ _ Hp Hf Hits Hitems).
Qed.

(** C5: on every record on which it is defined, the sanitizer returns a
    payload whose items are the record's items, one for one, each without
    [__isNew], without the temporary [id] when the item is new and without
    [url] when the type is INVOICE or FUNDING_REQUEST; whose [payeeLocation]
    is [null] unless the type is INVOICE, and is then an object holding the
    address and the country of the record's location and nothing else; and
    whose [payee] is the subset name, email, organization, newsletterOptIn
    of an invited or new payee, and otherwise a reference holding the
    payee's id and nothing else, under the key [id] when the id is a string
    and under [legacyId] when it is not. *)
Theorem prepareExpenseForSubmit_payload (expenseData : obj) :
  sanitizable expenseData = true →
  ∃ out its items payee,
    prepareExpenseForSubmit expenseData = Ok out
    ∧ prop expenseData "items" = VArr its
    ∧ out !! "items" = Some (VArr items)
    ∧ Forall2 (submitted_item
                 (strict_eq_str (prop expenseData "type") expenseTypes.INVOICE)
                 (strict_eq_str (prop expenseData "type") expenseTypes.FUNDING_REQUEST))
              its items
    ∧ (strict_eq_str (prop expenseData "type") expenseTypes.INVOICE = false →
       out !! "payeeLocation" = Some VNull)
    ∧ (strict_eq_str (prop expenseData "type") expenseTypes.INVOICE = true →
       ∃ location, out !! "payeeLocation" = Some (VObj location)
         ∧ ∀ k, location !! k =
                if decide (k ∈ ["address"; "country"])
                then own_prop (prop expenseData "payeeLocation") k else None)
    ∧ out !! "payee" = Some (VObj payee)
    ∧ (truthy (js_or (opt_prop (prop expenseData "payee") "isNewUser")
                     (opt_prop (prop expenseData "payee") "isInvite")) = true →
       ∀ k, payee !! k =
            if decide (k ∈ ["name"; "email"; "organization"; "newsletterOptIn"])
            then own_prop (prop expenseData "payee") k else None)
    ∧ (truthy (js_or (opt_prop (prop expenseData "payee") "isNewUser")
                     (opt_prop (prop expenseData "payee") "isInvite")) = false →
       (is_string (opt_prop (prop expenseData "payee") "id") = true →
        payee = {[ "id" := opt_prop (prop expenseData "payee") "id" ]})
       ∧ (is_string (opt_prop (prop expenseData "payee") "id") = false →
          payee = {[ "legacyId" := opt_prop (prop expenseData "payee") "id" ]})).
Proof.
  unfold sanitizable. rewrite !andb_true_iff. intros [[Hp Hf] Hi].
  apply payee_of_defined in Hp. apply files_of_defined in Hf as [files Hf].
  destruct (prop expenseData "items") as [| | | | |its|] eqn:Hits; try done.
  destruct (items_of_defined expenseData its Hi) as [items Hitems].
  eexists _, its, items, _. split.
  { by apply (prepareExpenseForSubmit_Ok _ _ _ _ _ Hp Hf Hits Hitems). }
  split; first done.
  split; first by rewrite lookup_insert_eq.
  split.
  { apply mapR_Ok in Hitems. eapply Forall2_impl; first exact Hitems.
    intros item out. apply item_of_submitted. }
  split.
  { intros ->. rewrite !lookup_insert_ne by done. by rewrite lookup_insert_eq. }
  split.
  { intros ->. eexists. split.
    - rewrite !lookup_insert_ne by done. by rewrite lookup_insert_eq.
    - intros k. apply pick_lookup. }
  split.
  { rewrite !lookup_insert_ne by done. by rewrite lookup_insert_eq. }
  split.
  - intros -> k. apply pick_lookup.
  - intros ->. split; intros ->; reflexivity.
Qed.

(** C3, as amended: on every record whose payee is a registered profile (not
    an invited or new user) with a string [id], and on which the sanitizer is
    defined, sanitizing the sanitized record returns it unchanged. *)
Theorem prepareExpenseForSubmit_idempotent (expenseData out : obj) :
  truthy (js_or (opt_prop (prop expenseData "payee") "isNewUser")
                (opt_prop (prop expenseData "payee") "isInvite")) = false →
  is_string (opt_prop (prop expenseData "payee") "id") = true →
  prepareExpenseForSubmit expenseData = Ok out →
  prepareExpenseForSubmit out = Ok out.
Proof.
  intros Hsign Hstr
    (payee & files & its & items & Hp & Hf & Hits & Hitems & ->)%prepareExpenseForSubmit_inv.
  rewrite Hsign, Hstr in Hp.
  destruct (opt_prop (prop expenseData "payee") "id") as [| | | |s| |] eqn:Hid; try done.
  assert (payee = {[ "id" := VStr s ]}) as ->.
  { unfold member in Hp. destruct (nullish (prop expenseData "payee")); first done.
    cbn [mbind result_bind] in Hp. rewrite Hid in Hp. by injection Hp as <-. }
  clear Hp Hstr.
  set (out := assemble expenseData {[ "id" := VStr s ]} files items).
  assert (Hpayee : prop out "payee" = VObj {[ "id" := VStr s ]}).
  { subst out. rewrite !prop_insert_ne by done. by rewrite prop_insert_eq. }
  assert (Htype : prop out "type" = prop expenseData "type").
  { subst out. rewrite !prop_insert_ne by done.
    rewrite prop_pick_in by solve_mem. done. }
  assert (Hfiles : prop out "attachedFiles" = files).
  { subst out. rewrite !prop_insert_ne by done. by rewrite prop_insert_eq. }
  assert (Hits' : prop out "items" = VArr items).
  { subst out. by rewrite prop_insert_eq. }
  assert (Hpm : prop out "payoutMethod"
                = VObj (pick (prop expenseData "payoutMethod")
                             ["id"; "name"; "data"; "isSaved"; "type"])).
  { subst out. rewrite !prop_insert_ne by done. by rewrite prop_insert_eq. }
  assert (Hloc : prop out "payeeLocation"
                 = if isInvoice_of expenseData
                   then VObj (pick (prop expenseData "payeeLocation") ["address"; "country"])
                   else VNull).
  { subst out. rewrite !prop_insert_ne by done. by rewrite prop_insert_eq. }
  assert (Htop : pick (VObj out) top_keys = pick (VObj expenseData) top_keys).
  { subst out. rewrite !pick_insert_other by solve_mem. by apply pick_pick. }
  assert (Hres : assemble out {[ "id" := VStr s ]} files items = out).
  { rewrite Htop, Hpm, Hloc, Htype, pick_pick by done.
    destruct (isInvoice_of expenseData); by rewrite ?pick_pick. }
  rewrite <- Hres at 2.
  apply prepareExpenseForSubmit_Ok with (its := items).
  - rewrite Hpayee. done.
  - rewrite Htype, Hfiles. destruct (isInvoice_of expenseData); last done.
    destruct (nullish (prop expenseData "attachedFiles")).
    + by injection Hf as <-.
    + destruct (array_of (prop expenseData "attachedFiles")) as [fs|]; last done.
      cbn in Hf. injection Hf as <-. cbn. do 2 f_equal.
      rewrite map_map. apply map_ext. intros file. by rewrite pick_pick.
  - done.
  - eapply mapR_again; last exact Hitems.
    intros item item'. by apply item_of_again.
Qed.

(** * The definitions at work on sample records *)

Import Samples.

(** The spec's example: the new item of an invoice loses [__isNew], its
    temporary [id] and its [url]. *)
Example prepareExpenseForSubmit_new_invoice_item :
  (out ← prepareExpenseForSubmit invoiceOfProfile; Ok (prop out "items"))
  = Ok (VArr [VObj {[ "description" := VStr "x"; "amount" := VNum 5 ]}]).
Proof. reflexivity. Qed.

(** ** The validator *)

Lemma validate_invoice_requires_country_witness :
  ∃ errs, validate noItemErrors noPayoutErrors invoiceOfProfile = Ok errs
    ∧ has_error errs ["payeeLocation"; "country"] = true.
Proof.
  apply (validate_invoice_requires_country
           noItemErrors noPayoutErrors invoiceOfProfile [newItem]);
    reflexivity.
Defined.

(** C1 fails for an invitee: the record is an invoice without a country, and
    the validator returns the empty error map. *)
Lemma validate_invoice_of_invitee_skips_country :
  strict_eq_str (prop invoiceForInvitee "type") expenseTypes.INVOICE = true
  ∧ truthy (get (VObj invoiceForInvitee) ["payeeLocation"; "country"]) = false
  ∧ validate noItemErrors noPayoutErrors invoiceForInvitee = Ok ∅
  ∧ has_error ∅ ["payeeLocation"; "country"] = false.
Proof. repeat split; reflexivity. Qed.

Lemma validate_invitee_requires_name_and_email_witness :
  ∃ errs, validate noItemErrors noPayoutErrors inviteeNameOnly = Ok errs
    ∧ has_error errs ["payee"; "email"] = true
    ∧ has_error errs ["payee"; "name"]
      = negb (truthy (get (VObj inviteeNameOnly) ["payee"; "name"])).
Proof.
  apply (validate_invitee_requires_name_and_email
           noItemErrors noPayoutErrors inviteeNameOnly);
    reflexivity.
Defined.

(** C2 fails for an invitee who has a name: the payee is invited and has
    neither id nor email, and the returned map holds an error on
    [payee.email] only. *)
Lemma validate_named_invitee_no_name_error :
  truthy (get (VObj inviteeNameOnly) ["payee"; "isInvite"]) = true
  ∧ nullish (get (VObj inviteeNameOnly) ["payee"; "id"]) = true
  ∧ nullish (get (VObj inviteeNameOnly) ["payee"; "email"]) = true
  ∧ validate noItemErrors noPayoutErrors inviteeNameOnly
    = Ok {[ "payee" := VObj {[ "email" := requiredError ]} ]}
  ∧ has_error {[ "payee" := VObj {[ "email" := requiredError ]} ]} ["payee"; "name"]
    = false.
Proof. repeat split; reflexivity. Qed.

Lemma validate_invite_returns_early_witness :
  ∃ errs, validate noItemErrors noPayoutErrors invoiceForInvitee = Ok errs
    ∧ errs !! "payoutMethod" = None
    ∧ errs !! "currency" = None
    ∧ errs !! "items" = None
    ∧ errs !! "payeeLocation" = None.
Proof.
  apply (validate_invite_returns_early noItemErrors noPayoutErrors invoiceForInvitee).
  reflexivity.
Defined.

(** ** The sanitizer *)

Lemma prepareExpenseForSubmit_idempotent_witness :
  prepareExpenseForSubmit invoiceOfProfile = Ok invoiceOfProfilePayload
  ∧ prepareExpenseForSubmit invoiceOfProfilePayload = Ok invoiceOfProfilePayload.
Proof.
  split; first reflexivity.
  apply (prepareExpenseForSubmit_idempotent invoiceOfProfile);
    reflexivity.
Defined.

(** C3 fails for an invitee: the first pass keeps the payee's name and email,
    the second pass finds no [id] there and turns the payee into a reference
    to [undefined]. *)
Lemma prepareExpenseForSubmit_twice_invitee :
  ∃ out out2,
    prepareExpenseForSubmit receiptForInvitee = Ok out
    ∧ prepareExpenseForSubmit out = Ok out2
    ∧ prop out "payee"
      = VObj {[ "name" := VStr "Ann"; "email" := VStr "ann@example.org" ]}
    ∧ prop out2 "payee" = VObj {[ "legacyId" := VUndefined ]}
    ∧ out2 ≠ out.
Proof.
  exists receiptForInviteePayload, (<["payee" := legacyUndefined]> receiptForInviteePayload).
  split; first reflexivity.
  split; first reflexivity.
  split; first reflexivity.
  split; first reflexivity.
  intros Heq.
  apply (f_equal (λ o, nullish (opt_prop (prop o "payee") "name"))) in Heq.
  discriminate Heq.
Qed.

(** The same happens to a profile with a numeric (legacy) id. *)
Example prepareExpenseForSubmit_twice_legacy :
  (out ← prepareExpenseForSubmit receiptLegacyPayee; Ok (prop out "payee"))
  = Ok (VObj {[ "legacyId" := VNum 42 ]})
  ∧ (out ← prepareExpenseForSubmit receiptLegacyPayee;
     out2 ← prepareExpenseForSubmit out; Ok (prop out2 "payee"))
    = Ok (VObj {[ "legacyId" := VUndefined ]}).
Proof. split; reflexivity. Qed.

Lemma prepareExpenseForSubmit_payload_witness :
  ∃ out items,
    prepareExpenseForSubmit invoiceOfProfile = Ok out
    ∧ out !! "items" = Some (VArr items)
    ∧ Forall2 (submitted_item true false) [newItem] items.
Proof.
  destruct (prepareExpenseForSubmit_payload invoiceOfProfile)
    as (out & its & items & payee & Hout & Hits & Hitems & Hall & _);
    first reflexivity.
  change (VArr [newItem] = VArr its) in Hits. injection Hits as <-.
  exists out, items.
  split; first exact Hout.
  split; first exact Hitems.
  exact Hall.
Defined.

Lemma prepareExpenseForSubmit_needs_payee_witness :
  prepareExpenseForSubmit noPayee = TypeError.
Proof. apply prepareExpenseForSubmit_needs_payee. reflexivity. Defined.

(** ** The step controller *)

Lemma onTypeChange_resets_step_witness :
  values (onTypeChange false draftForInvitee)
  = <["payee" := VNull]> (values draftForInvitee).
Proof.
  apply (proj1 (proj2 (proj2 (onTypeChange_resets_step false draftForInvitee))));
    reflexivity.
Defined.

(** C4 fails for a draft: the type effect leaves the invited payee of a draft
    in place. *)
Lemma onTypeChange_draft_keeps_invitee :
  truthy (opt_prop (prop (values draftForInvitee) "payee") "isInvite") = true
  ∧ step (onTypeChange true draftForInvitee) = PAYEE
  ∧ prop (values (onTypeChange true draftForInvitee)) "payee" = invitee
  ∧ prop (values (onTypeChange true draftForInvitee)) "payee" ≠ VNull.
Proof. repeat split; try reflexivity. discriminate. Qed.

Lemma zero_items_block_submission_witness :
  ∃ completed, stepTwoCompleted flattenFlat taxiNoItems = Ok completed
    ∧ truthy completed = false
    ∧ ∀ isValid, submitDisabled completed isValid = true.
Proof.
  apply (zero_items_block_submission flattenFlat taxiNoItems); reflexivity.
Defined.

Lemma initialStep_spec_witness : stepOneComplete_spec flattenFlat taxiNoItems.
Proof.
  apply (proj1 (proj1 (initialStep_spec flattenFlat taxiNoItems))).
  reflexivity.
Defined.

Lemma onNext_advances_iff_payout_valid_witness :
  step (onNext requirePayoutType taxiNoItems) = PAYEE
  ∧ errors (onNext requirePayoutType taxiNoItems)
    = {[ "payoutMethod" := requirePayoutType (prop (values taxiNoItems) "payoutMethod") ]}.
Proof.
  apply (proj1 (proj2 (onNext_advances_iff_payout_valid
                         requirePayoutType taxiNoItems eq_refl))).
  reflexivity.
Defined.

Lemma payeeStepOnNext_spec_witness :
  ∃ f', payeeStepOnNext requirePayoutType false false true taxiNoItems = Some f'
    ∧ step f' = PAYEE
    ∧ errors f'
      = {[ "payoutMethod" := requirePayoutType (prop (values taxiNoItems) "payoutMethod") ]}.
Proof.
  destruct (payeeStepOnNext_spec requirePayoutType false false true taxiNoItems)
    as (f' & Hf' & _ & Hstep & _); [reflexivity | reflexivity | reflexivity |].
  exists f'. split; first exact Hf'.
  apply Hstep; reflexivity.
Defined.

(** C8 fails for a draft opened by someone who is not logged in: Next moves
    to the expense step although the payout-method check returns errors. *)
Lemma payeeStepOnNext_signUp_skips_check :
  step draftToComplete = PAYEE
  ∧ isEmpty (requirePayoutType (prop (values draftToComplete) "payoutMethod")) = false
  ∧ step <$> payeeStepOnNext requirePayoutType false true false draftToComplete
    = Some EXPENSE
  ∧ errors <$> payeeStepOnNext requirePayoutType false true false draftToComplete
    = Some ∅.
Proof. repeat split; reflexivity. Qed.

(** * The effects of [ExpenseFormBody] *)

(** X10: no invitee is left selected.  After "Back", and after a change of
    type on an expense that is not a draft, the step is PAYEE and the payee
    is not an invitee; every field other than [payee] is as before, and a
    payee that was no invitee is kept. *)
Theorem back_and_type_change_drop_invitee (f : form) :
  ∀ f', f' = onBack f ∨ f' = onTypeChange false f →
    step f' = PAYEE
    ∧ truthy (opt_prop (prop (values f') "payee") "isInvite") = false
    ∧ (∀ k, k ≠ "payee" → values f' !! k = values f !! k)
    ∧ (truthy (opt_prop (prop (values f) "payee") "isInvite") = false →
       values f' = values f).
Proof.
  assert (onTypeChange false f = onBack f) as -> by done.
  intros f' [-> | ->]; unfold onBack;
    destruct (truthy (opt_prop (prop (values f) "payee") "isInvite")) eqn:Hinv;
    cbn [setFieldValue setStep step values];
    (split; [done |]); (split; [by rewrite ?prop_insert_eq |]);
    (split; [intros k Hk; by rewrite ?lookup_insert_ne | done]).
Qed.

(** ** The payee chosen for the user *)

(** X11: a logged-out user completing a draft submits the draft's payee as a
    new user.  When the draft carries a payee object and nobody is logged
    in, the effect selects that payee with [isInvite] false and [isNewUser]
    true; if the resulting values are in the sanitizer's domain, the payload
    is defined and its payee is exactly the name, email, organization and
    newsletterOptIn of the draft's payee, without any id. *)
Theorem onPayoutProfiles_draft_payee_payload (isDraft : bool)
    (payoutProfiles : list value) (f : form) (draftPayee : obj) :
  opt_prop (prop (values f) "draft") "payee" = VObj draftPayee →
  sanitizable (values (onPayoutProfiles isDraft false payoutProfiles f)) = true →
  prop (values (onPayoutProfiles isDraft false payoutProfiles f)) "payee"
  = VObj (<["isNewUser" := VBool true]> (<["isInvite" := VBool false]> draftPayee))
  ∧ ∃ out,
      prepareExpenseForSubmit (values (onPayoutProfiles isDraft false payoutProfiles f))
      = Ok out
      ∧ out !! "payee"
        = Some (VObj (pick (VObj draftPayee)
                           ["name"; "email"; "organization"; "newsletterOptIn"])).
Proof.
  intros Hdraft. unfold onPayoutProfiles. rewrite Hdraft.
  cbn [truthy negb andb spread setFieldValue values].
  set (payee := <["isNewUser" := VBool true]> (<["isInvite" := VBool false]> draftPayee)).
  intros [out Hout]%prepareExpenseForSubmit_defined.
  split; first by rewrite prop_insert_eq.
  exists out. split; first done.
  apply prepareExpenseForSubmit_inv in Hout
    as (payee' & files & its & items & Hpayee & _ & _ & _ & ->).
  rewrite !lookup_insert_ne by done. rewrite lookup_insert_eq.
  rewrite prop_insert_eq in Hpayee. cbn [opt_prop] in Hpayee.
  replace (prop payee "isNewUser") with (VBool true) in Hpayee
    by (subst payee; by rewrite prop_insert_eq).
  cbn [js_or truthy] in Hpayee. injection Hpayee as <-.
  subst payee.
  rewrite <- (pick_insert_other draftPayee _ "isInvite" (VBool false)) by solve_mem.
  rewrite <- (pick_insert_other _ _ "isNewUser" (VBool true)) by solve_mem.
  done.
Qed.

(** X12: the effect never takes a choice away.  It writes no field other
    than [payee] and leaves the step alone; and when no draft payee is
    adopted (none is there, or someone is logged in), it leaves the form as
    it is as soon as an invitee is selected, nobody is logged in, there is
    no payout profile, or the expense is not a draft and a payee is
    chosen. *)
Theorem onPayoutProfiles_keeps_choice (isDraft loggedInAccount : bool)
    (payoutProfiles : list value) (f : form) :
  step (onPayoutProfiles isDraft loggedInAccount payoutProfiles f) = step f
  ∧ (∀ k, k ≠ "payee" →
       values (onPayoutProfiles isDraft loggedInAccount payoutProfiles f) !! k
       = values f !! k)
  ∧ (truthy (opt_prop (prop (values f) "draft") "payee") = false
     ∨ loggedInAccount = true →
     truthy (opt_prop (prop (values f) "payee") "isInvite") = true
     ∨ loggedInAccount = false
     ∨ payoutProfiles = []
     ∨ (isDraft = false ∧ truthy (prop (values f) "payee") = true) →
     onPayoutProfiles isDraft loggedInAccount payoutProfiles f = f).
Proof.
  unfold onPayoutProfiles. split; [| split].
  - by repeat case_match.
  - intros k Hk. unfold setFieldValue. repeat case_match; cbn [values];
      by rewrite ?lookup_insert_ne, ?lookup_delete_ne.
  - intros Hadopt Hkeep.
    assert (truthy (opt_prop (prop (values f) "draft") "payee") && negb loggedInAccount
            = false) as ->.
    { destruct Hadopt as [-> | ->]; [done | apply andb_false_r]. }
    destruct Hkeep as [-> | [-> | [-> | [-> ->]]]]; cbn [negb andb orb];
      rewrite ?andb_false_r; done.
Qed.

(** ** The address taken from the payee *)

Lemma setLocationFromPayee_Ok (payee : value) (f : form) :
  truthy (opt_prop payee "location") = true →
  setLocationFromPayee payee f =
    Ok (setFieldValueIn ["payeeLocation"; "address"]
          (js_or (get payee ["location"; "address"]) (VStr ""))
          (setFieldValueIn ["payeeLocation"; "country"]
             (js_or (get payee ["location"; "country"]) VNull) f)).
Proof.
  intros Hloc. destruct (truthy_opt_prop_obj _ _ Hloc) as [o ->].
  unfold setLocationFromPayee, member.
  cbn [nullish opt_prop get mbind result_bind] in *.
  by destruct (prop o "location").
Qed.

(** X13: the effect never throws and never overwrites an address.  For every
    form the effect returns; the step becomes EXPENSE exactly when the
    expense is not a draft and the payee is an invitee, and is otherwise
    kept; and when an address is already there, or the payee has no
    location, the values are left as they are. *)
Theorem onPayeeChange_keeps_address (isDraft : bool) (f : form) :
  ∃ f', onPayeeChange isDraft f = Ok f'
    ∧ step f'
      = (if negb isDraft && truthy (opt_prop (prop (values f) "payee") "isInvite")
         then EXPENSE else step f)
    ∧ (truthy (opt_prop (prop (values f) "payeeLocation") "address") = true
       ∨ truthy (opt_prop (prop (values f) "payee") "location") = false →
       values f' = values f).
Proof.
  unfold onPayeeChange.
  destruct (truthy (opt_prop (prop (values f) "payeeLocation") "address")) eqn:Haddr;
    destruct (truthy (opt_prop (prop (values f) "payee") "location")) eqn:Hloc;
    cbn [negb andb]; rewrite ?(setLocationFromPayee_Ok _ _ Hloc);
    cbn [mbind result_bind]; eexists; (split; [reflexivity |]);
    (split; [by destruct (negb isDraft && _) |]);
    intros [? | ?]; try done; by destruct (negb isDraft && _).
Qed.

Lemma js_or_defined (a b : value) : b ≠ VUndefined → js_or a b ≠ VUndefined.
Proof.
  unfold js_or. destruct (truthy a) eqn:Ha; last done.
  intros _ ->. done.
Qed.

(** X14: what the prefill writes.  When the address is empty and the payee
    has a location, the effect sets the country to the payee's country, or
    to [null] when that is empty, and the address to the payee's address,
    or to the empty string; neither is left [undefined].  The other fields
    of the location and of the form are kept. *)
Theorem onPayeeChange_prefills_location (isDraft : bool) (f : form) :
  truthy (opt_prop (prop (values f) "payeeLocation") "address") = false →
  truthy (opt_prop (prop (values f) "payee") "location") = true →
  ∃ f', onPayeeChange isDraft f = Ok f'
    ∧ get (VObj (values f')) ["payeeLocation"; "country"]
      = js_or (get (VObj (values f)) ["payee"; "location"; "country"]) VNull
    ∧ get (VObj (values f')) ["payeeLocation"; "address"]
      = js_or (get (VObj (values f)) ["payee"; "location"; "address"]) (VStr "")
    ∧ get (VObj (values f')) ["payeeLocation"; "country"] ≠ VUndefined
    ∧ get (VObj (values f')) ["payeeLocation"; "address"] ≠ VUndefined
    ∧ (∀ k, k ≠ "country" → k ≠ "address" →
         get (VObj (values f')) ["payeeLocation"; k]
         = get (VObj (values f)) ["payeeLocation"; k])
    ∧ (∀ k, k ≠ "payeeLocation" → values f' !! k = values f !! k).
Proof.
  intros Haddr Hloc. unfold onPayeeChange.
  rewrite Haddr, Hloc. cbn [negb andb].
  rewrite (setLocationFromPayee_Ok _ _ Hloc). cbn [mbind result_bind].
  eexists; split; first reflexivity.
  assert (Hvalues : ∀ f0, values (if negb isDraft
                                     && truthy (opt_prop (prop (values f) "payee") "isInvite")
                                  then setStep EXPENSE f0 else f0) = values f0).
  { intros f0. by destruct (_ && _). }
  rewrite Hvalues. clear Hvalues.
  cbn [setFieldValueIn set values get opt_prop].
  rewrite lookup_insert_eq.
  set (country := js_or _ VNull). set (address := js_or _ (VStr "")).
  set (location := match values f !! "payeeLocation" with
                   | Some (VObj c) => c
                   | _ => ∅
                   end).
  assert (Hcountry : country ≠ VUndefined) by by apply js_or_defined.
  assert (Haddress : address ≠ VUndefined) by by apply js_or_defined.
  rewrite !prop_insert_eq. cbn [opt_prop].
  split; first by rewrite prop_insert_ne, prop_insert_eq.
  split; first by rewrite prop_insert_eq.
  split; first by rewrite prop_insert_ne, prop_insert_eq.
  split; first by rewrite prop_insert_eq.
  split.
  - intros k Hc Ha. rewrite !prop_insert_ne by done.
    subst location. unfold prop.
    by destruct (values f !! "payeeLocation") as [[]|].
  - intros k Hk. by rewrite !lookup_insert_ne.
Qed.

(** ** The step of a mounted form *)

(** The payee effect never throws. *)
Lemma onPayeeChange_defined (isDraft : bool) (f : form) :
  ∃ f', onPayeeChange isDraft f = Ok f'.
Proof.
  unfold onPayeeChange.
  destruct (truthy (opt_prop (prop (values f) "payeeLocation") "address"));
    destruct (truthy (opt_prop (prop (values f) "payee") "location")) eqn:Hloc;
    cbn [negb andb]; rewrite ?(setLocationFromPayee_Ok _ _ Hloc);
    cbn [mbind result_bind]; eauto.
Qed.

(** Whatever the first render shows, the mounted form is on the payee step:
    the type effect has the last word. *)
Lemma stepAfterMount_is_PAYEE (isDraft : bool) (f : form) :
  stepAfterMount isDraft f = Ok PAYEE.
Proof.
  unfold stepAfterMount.
  destruct (onPayeeChange_defined isDraft f) as [f1 ->].
  cbn [mbind result_bind]. unfold onTypeChange.
  by destruct (negb isDraft && _).
Qed.

Lemma mountedStep_is_PAYEE (flattenObjectDeep : value → value)
    (isDraft : bool) (f : form) :
  mountedStep flattenObjectDeep isDraft f = Ok PAYEE.
Proof. apply stepAfterMount_is_PAYEE. Qed.

(** C7: a receipt with a payout method and no errors.  The step-one
    completeness predicate holds and the argument of [React.useState] is
    EXPENSE, as the claim has it; once the form is mounted the step is
    PAYEE, for a draft and for any other expense, since the effect that
    returns to the payee step when the type changes runs after the first
    render too. *)
Theorem mount_returns_to_PAYEE :
  stepOneComplete_spec flattenFlat taxiNoItems
  ∧ initialStep flattenFlat taxiNoItems = EXPENSE
  ∧ mountedStep flattenFlat false taxiNoItems = Ok PAYEE
  ∧ mountedStep flattenFlat true taxiNoItems = Ok PAYEE.
Proof.
  split; first by apply stepOneCompleted_truthy.
  repeat split; reflexivity.
Qed.

(** * [TruncatedTextWithTooltip] *)

Lemma string_length_app (s t : string) :
  String.length (s +:+ t) = (String.length s + String.length t)%nat.
Proof. induction s as [|c s IH]; simpl; [done | by f_equal]. Qed.

Lemma string_length_substring (n : nat) (s : string) :
  (n ≤ String.length s)%nat → String.length (String.substring 0 n s) = n.
Proof.
  revert s. induction n as [|n IH]; intros s Hn.
  - by destruct s.
  - destruct s as [|c s]; cbn in *; first lia.
    rewrite IH; [done | lia].
Qed.

(** X15: the text on the page fits, and nothing is lost.  For every ASCII
    value (on which [value.length] and lodash's count of symbols are both
    the number of characters) and every limit (30 when absent), the full
    value stays available; a value within the limit is shown as it is,
    without a tooltip; a longer one is shown under a tooltip, cut to the
    limit with the three dots counted in, and never to less than the three
    dots.  The text shown is never longer than the larger of the limit and
    3. *)
Theorem TruncatedTextWithTooltip_fits (value : string) (length : option Z) :
  TruncatedText.is_ascii value = true →
  let limit := default 30%Z length in
  let r := TruncatedText.TruncatedTextWithTooltip value length in
  TruncatedText.full_text r = value
  ∧ (Z.of_nat (String.length (TruncatedText.shown_text r)) ≤ Z.max limit 3)%Z
  ∧ ((Z.of_nat (String.length value) ≤ limit)%Z → r = TruncatedText.Text value)
  ∧ ((limit < Z.of_nat (String.length value))%Z →
     r = TruncatedText.Tooltip value (TruncatedText.shown_text r)
     ∧ Z.of_nat (String.length (TruncatedText.shown_text r)) = Z.max limit 3
     ∧ ((3 ≤ limit)%Z →
        TruncatedText.shown_text r
        = String.substring 0 (Z.to_nat (limit - 3)) value +:+ "...")).
Proof.
  intros _ limit r. subst r. unfold TruncatedText.TruncatedTextWithTooltip.
  fold limit. cbv zeta.
  destruct (Z.leb_spec (Z.of_nat (String.length value)) limit) as [Hfit | Hlong].
  - cbn [TruncatedText.full_text TruncatedText.shown_text].
    split; first done. split; first lia. split; first done. lia.
  - cbn [TruncatedText.full_text TruncatedText.shown_text].
    assert (Hshown :
      Z.of_nat (String.length (TruncatedText.truncate value limit)) = Z.max limit 3
      ∧ ((3 ≤ limit)%Z →
         TruncatedText.truncate value limit
         = String.substring 0 (Z.to_nat (limit - 3)) value +:+ "...")).
    { unfold TruncatedText.truncate.
      destruct (Z.geb_spec limit (Z.of_nat (String.length value))) as [? | _]; first lia.
      destruct (Z.ltb_spec (limit - 3) 1) as [Hsmall | Hbig].
      - split; first (cbn; lia).
        intros H3. replace (limit - 3)%Z with 0%Z by lia. by destruct value.
      - split; last done.
        rewrite string_length_app, string_length_substring by lia.
        cbn. lia. }
    destruct Hshown as [Hlen Hcut].
    split; first done. split; first lia. split; first lia.
    intros _. done.
Qed.

(** * [CreateCollectiveForm] *)

(** ** Hyphens at the ends of a slug *)

Lemma trimStart_cases (s : string) :
  (CreateCollectiveForm.trimStart s = s ∧ ∀ t, s ≠ String "-"%char t)
  ∨ ((String.length (CreateCollectiveForm.trimStart s) < String.length s)%nat
     ∧ ∃ t, s = String "-"%char t).
Proof.
  induction s as [|c s IH]; first by left.
  cbn [CreateCollectiveForm.trimStart]. destruct (Ascii.eqb_spec c "-"%char) as [-> | Hc].
  - right. split; last by eauto.
    cbn [String.length]. destruct IH as [[-> _] | [Hlt _]]; lia.
  - left. split; first done. intros t [= -> _]. done.
Qed.

Lemma ends_with_hyphen_cons (c : ascii) (s : string) :
  (∃ t, String c s = t +:+ "-") ↔ (s = "" ∧ c = "-"%char) ∨ (∃ t, s = t +:+ "-").
Proof.
  split.
  - intros [[|c' t] Ht]; simpl in Ht; injection Ht as -> ->; eauto.
  - intros [[-> ->] | [t ->]]; [by exists "" | by exists (String c t)].
Qed.

Lemma trimEnd_cases (s : string) :
  (CreateCollectiveForm.trimEnd s = s ∧ ¬ ∃ t, s = t +:+ "-")
  ∨ ((String.length (CreateCollectiveForm.trimEnd s) < String.length s)%nat ∧ ∃ t, s = t +:+ "-").
Proof.
  induction s as [|c s IH].
  - left. split; first done. intros [[|c t] Ht]; discriminate Ht.
  - rewrite ends_with_hyphen_cons. cbn [CreateCollectiveForm.trimEnd].
    destruct IH as [[Hid Hno] | [Hlt Hends]].
    + rewrite Hid. destruct s as [|c' s'].
      * destruct (Ascii.eqb_spec c "-"%char) as [-> | Hc].
        -- right. split; [cbn; lia | by left].
        -- left. split; first done. intros [[_ ?] | ?]; done.
      * left. split; first done. intros [[? _] | ?]; done.
    + right. split; last by right.
      destruct (CreateCollectiveForm.trimEnd s) as [|c' t'] eqn:Ht.
      * destruct (Ascii.eqb c "-"%char); cbn [String.length] in *; lia.
      * cbn [String.length] in *. lia.
Qed.

Lemma trimEnd_length (s : string) :
  (String.length (CreateCollectiveForm.trimEnd s) ≤ String.length s)%nat.
Proof. destruct (trimEnd_cases s) as [[-> _] | [? _]]; lia. Qed.

(** [_.trim(s, '-')] changes a slug exactly when a hyphen is at one of its
    ends. *)
Lemma trim_cases (s : string) :
  (CreateCollectiveForm.trim s = s ∧ ¬ CreateCollectiveForm.hyphen_at_an_end s)
  ∨ (CreateCollectiveForm.trim s ≠ s ∧ CreateCollectiveForm.hyphen_at_an_end s).
Proof.
  unfold CreateCollectiveForm.trim, CreateCollectiveForm.hyphen_at_an_end.
  destruct (trimStart_cases s) as [[Hid Hno] | [Hlt Hstart]].
  - rewrite Hid. destruct (trimEnd_cases s) as [[Hid' Hno'] | [Hlt' Hends]].
    + left. split; first done. intros [[t ->] | ?]; [by eapply Hno | done].
    + right. split; last by right. intros Heq. rewrite Heq in Hlt'. lia.
  - right. split; last by left.
    intros Heq. pose proof (trimEnd_length (CreateCollectiveForm.trimStart s)) as Hle.
    rewrite Heq in Hle. lia.
Qed.

Lemma slug_test (s : string) :
  (negb (String.eqb s (CreateCollectiveForm.trim s)) = true
   ↔ CreateCollectiveForm.hyphen_at_an_end s)
  ∧ (negb (String.eqb s (CreateCollectiveForm.trim s)) = false
     ↔ ¬ CreateCollectiveForm.hyphen_at_an_end s).
Proof.
  rewrite negb_true_iff, negb_false_iff, String.eqb_neq, String.eqb_eq.
  destruct (trim_cases s) as [[Heq Hno] | [Hne Hyes]].
  - intuition congruence.
  - intuition congruence.
Qed.

(** X16: the collective form accepts exactly the values within its bounds.
    The validator returns no error if and only if the name has at most 50
    characters, the slug has at most 30 and no hyphen at either end, and the
    description has at most 160; empty fields are accepted. *)
Theorem CreateCollectiveForm_validate_accepts (values : CreateCollectiveForm.formValues) :
  CreateCollectiveForm.validate values = ∅
  ↔ (String.length (CreateCollectiveForm.name values) ≤ 50)%nat
    ∧ (String.length (CreateCollectiveForm.slug values) ≤ 30)%nat
    ∧ ¬ CreateCollectiveForm.hyphen_at_an_end (CreateCollectiveForm.slug values)
    ∧ (String.length (CreateCollectiveForm.description values) ≤ 160)%nat.
Proof.
  unfold CreateCollectiveForm.validate. cbv zeta.
  destruct (slug_test (CreateCollectiveForm.slug values)) as [Hyes Hno].
  destruct (Nat.ltb_spec 50 (String.length (CreateCollectiveForm.name values)));
    destruct (Nat.ltb_spec 30 (String.length (CreateCollectiveForm.slug values)));
    destruct (negb (String.eqb (CreateCollectiveForm.slug values) (CreateCollectiveForm.trim (CreateCollectiveForm.slug values))));
    destruct (Nat.ltb_spec 160 (String.length (CreateCollectiveForm.description values)));
    (split;
     [ intros Hempty; try (by apply insert_non_empty in Hempty);
       repeat split; try lia; by apply Hno
     | intros (? & ? & Hslug & ?); try lia;
       try (exfalso; apply Hslug; by apply Hyes); done ]).
Qed.

(** X17: what is reported on the slug.  A slug with a hyphen at one of its
    ends is reported with the hyphen message, also when it is too long; any
    other slug is reported with the length message when it has more than 30
    characters, and not at all otherwise. *)
Theorem CreateCollectiveForm_validate_slug (values : CreateCollectiveForm.formValues) :
  (CreateCollectiveForm.hyphen_at_an_end (CreateCollectiveForm.slug values) →
   CreateCollectiveForm.validate values !! "slug" = Some CreateCollectiveForm.errorSlugHyphen)
  ∧ (¬ CreateCollectiveForm.hyphen_at_an_end (CreateCollectiveForm.slug values) →
     CreateCollectiveForm.validate values !! "slug"
     = if (30 <? String.length (CreateCollectiveForm.slug values))%nat
       then Some CreateCollectiveForm.errorSlug else None).
Proof.
  unfold CreateCollectiveForm.validate. cbv zeta.
  destruct (slug_test (CreateCollectiveForm.slug values)) as [Hyes Hno].
  split.
  - intros Hh%Hyes. rewrite Hh.
    destruct (160 <? _)%nat; rewrite ?lookup_insert_ne by done;
      by rewrite lookup_insert_eq.
  - intros Hh%Hno. rewrite Hh.
    destruct (160 <? _)%nat, (30 <? _)%nat, (50 <? _)%nat;
      rewrite ?lookup_insert_ne by done; by rewrite ?lookup_insert_eq.
Qed.

(** ** The name made of a repository *)

Lemma toUpperCase_facts (c : ascii) :
  CreateCollectiveForm.is_space (CreateCollectiveForm.toUpperCase c)
  = CreateCollectiveForm.is_space c
  ∧ CreateCollectiveForm.toUpperCase (CreateCollectiveForm.toUpperCase c)
    = CreateCollectiveForm.toUpperCase c
  ∧ (c ≠ "-"%char → CreateCollectiveForm.toUpperCase c ≠ "-"%char)
  ∧ (c ≠ "_"%char → CreateCollectiveForm.toUpperCase c ≠ "_"%char).
Proof.
  destruct c as [[] [] [] [] [] [] [] []]; repeat split; cbv; congruence.
Qed.

(** No character of [s] is a dash or an underscore. *)
#[local] Abbreviation dashless s :=
  (∀ i c, String.get i s = Some c → c ≠ "-"%char ∧ c ≠ "_"%char).

Lemma dashless_cons (c : ascii) (s : string) :
  dashless (String c s) ↔ (c ≠ "-"%char ∧ c ≠ "_"%char) ∧ dashless s.
Proof.
  split.
  - intros Hall. split; first by apply (Hall 0%nat).
    intros i c' Hi. by apply (Hall (S i)).
  - intros [Hc Hs] [|i] c' Hi; cbn in Hi; [by injection Hi as <- | by eapply Hs].
Qed.

Lemma replaceDashes_dashless (s : string) :
  dashless (CreateCollectiveForm.replaceDashes s).
Proof.
  induction s as [|c s IH]; first by intros [|i] c.
  cbn [CreateCollectiveForm.replaceDashes]. apply dashless_cons. split; last done.
  destruct (Ascii.eqb_spec c "-"%char), (Ascii.eqb_spec c "_"%char); cbn [orb]; done.
Qed.

Lemma capitalise_dashless (boundary : bool) (s : string) :
  dashless s → dashless (CreateCollectiveForm.capitalise boundary s).
Proof.
  revert boundary. induction s as [|c s IH]; intros boundary; first done.
  rewrite dashless_cons. intros [[Hd Hu] Hs].
  cbn [CreateCollectiveForm.capitalise]. apply dashless_cons.
  split; last by apply IH.
  destruct (toUpperCase_facts c) as (_ & _ & Hd' & Hu').
  destruct (boundary && _); auto.
Qed.

Lemma replaceDashes_id (s : string) :
  dashless s → CreateCollectiveForm.replaceDashes s = s.
Proof.
  induction s as [|c s IH]; first done.
  rewrite dashless_cons. intros [[Hd Hu] Hs].
  cbn [CreateCollectiveForm.replaceDashes]. rewrite (IH Hs).
  apply Ascii.eqb_neq in Hd, Hu. by rewrite Hd, Hu.
Qed.

Lemma capitalise_again (boundary : bool) (s : string) :
  CreateCollectiveForm.capitalise boundary (CreateCollectiveForm.capitalise boundary s)
  = CreateCollectiveForm.capitalise boundary s.
Proof.
  revert boundary. induction s as [|c s IH]; intros boundary; first done.
  cbn [CreateCollectiveForm.capitalise].
  destruct (toUpperCase_facts c) as (Hspace & Hupper & _).
  destruct boundary, (CreateCollectiveForm.is_space c) eqn:Hc; cbn [andb negb];
    rewrite ?Hspace, ?Hc; cbn [andb negb]; by rewrite ?Hupper, IH.
Qed.

Lemma replaceDashes_length (s : string) :
  String.length (CreateCollectiveForm.replaceDashes s) = String.length s.
Proof. induction s as [|c s IH]; cbn; [done | by rewrite IH]. Qed.

Lemma capitalise_length (boundary : bool) (s : string) :
  String.length (CreateCollectiveForm.capitalise boundary s) = String.length s.
Proof.
  revert boundary. induction s as [|c s IH]; intros boundary; cbn;
    [done | by rewrite IH].
Qed.

(** X18: the name made of a repository name has as many characters as the
    repository name, holds no dash and no underscore, and is left as it is
    when formatted again. *)
Theorem formatGithubRepoName_shape (repoName : string) :
  String.length (CreateCollectiveForm.formatGithubRepoName repoName)
  = String.length repoName
  ∧ (∀ i c, String.get i (CreateCollectiveForm.formatGithubRepoName repoName) = Some c →
       c ≠ "-"%char ∧ c ≠ "_"%char)
  ∧ CreateCollectiveForm.formatGithubRepoName
      (CreateCollectiveForm.formatGithubRepoName repoName)
    = CreateCollectiveForm.formatGithubRepoName repoName.
Proof.
  unfold CreateCollectiveForm.formatGithubRepoName.
  pose proof (capitalise_dashless true _ (replaceDashes_dashless repoName)) as Hd.
  split; first by rewrite capitalise_length, replaceDashes_length.
  split; first done.
  by rewrite (replaceDashes_id _ Hd), capitalise_again.
Qed.

(** X19: a name taken from a repository is too long exactly when the
    repository's name is.  For the initial values made of a repository, the
    validator reports the name if and only if the repository name has more
    than 50 characters, and it reports the slug, which is the repository
    name itself, with the hyphen message when that name starts or ends with
    a hyphen. *)
Theorem CreateCollectiveForm_initialValues_of_repo (repo : string) :
  (CreateCollectiveForm.validate (CreateCollectiveForm.initialValues (Some repo)) !! "name"
   = if (50 <? String.length repo)%nat then Some CreateCollectiveForm.errorName else None)
  ∧ (CreateCollectiveForm.hyphen_at_an_end repo →
     CreateCollectiveForm.validate (CreateCollectiveForm.initialValues (Some repo)) !! "slug"
     = Some CreateCollectiveForm.errorSlugHyphen)
  ∧ CreateCollectiveForm.validate (CreateCollectiveForm.initialValues (Some repo))
    !! "description" = None.
Proof.
  unfold CreateCollectiveForm.validate. cbv zeta.
  cbn [CreateCollectiveForm.initialValues CreateCollectiveForm.name
       CreateCollectiveForm.slug CreateCollectiveForm.description].
  unfold CreateCollectiveForm.formatGithubRepoName.
  rewrite capitalise_length, replaceDashes_length.
  destruct (slug_test repo) as [Hyes _].
  change (160 <? String.length "")%nat with false. cbv iota.
  split; [| split].
  - destruct (50 <? _)%nat, (30 <? _)%nat, (negb _);
      rewrite ?lookup_insert_ne by done; by rewrite ?lookup_insert_eq.
  - intros Hh%Hyes. rewrite Hh. by rewrite lookup_insert_eq.
  - destruct (50 <? _)%nat, (30 <? _)%nat, (negb _);
      rewrite ?lookup_insert_ne by done; done.
Qed.

(** ** The host's terms *)

(** X20: with [hostTos] in the query, every submission accepts the host's
    terms.  When the router's query carries [hostTos], the state reached
    after mounting and after any number of ticks on the checkboxes that are
    on the page has [hostTos] true, and so has whatever [submit] hands to
    [onSubmit]: the host's checkbox is not rendered, so nothing can untick
    it. *)
Theorem CreateCollectiveForm_hostTos_kept (p : CreateCollectiveForm.props)
    (st : CreateCollectiveForm.state) :
  truthy (CreateCollectiveForm.queryHostTos p) = true →
  CreateCollectiveForm.reachable p st →
  CreateCollectiveForm.hostTos st = true
  ∧ ∀ values,
      CreateCollectiveForm.sub_hostTos (CreateCollectiveForm.submit st values) = true.
Proof.
  intros Hq Hreach.
  assert (Hst : CreateCollectiveForm.hostTos st = true); last done.
  induction Hreach as [|st st' _ IH Hchange].
  - unfold CreateCollectiveForm.componentDidMount.
    by rewrite truthy_js_or, Hq, orb_true_r.
  - inversion Hchange as [st0 checked | st0 checked Hbox]; subst; first done.
    exfalso. unfold CreateCollectiveForm.hostTosCheckbox in Hbox.
    by rewrite !truthy_js_and, Hq in Hbox.
Qed.

(** * The further properties at work on sample records *)

Lemma validate_registered_accepts_witness :
  validate noItemErrors noPayoutErrors (values taxiNoItems) = Ok ∅.
Proof.
  apply (validate_registered_accepts noItemErrors noPayoutErrors (values taxiNoItems) []);
    [reflexivity | reflexivity |].
  do 4 (split; first reflexivity).
  split; first constructor.
  split; first reflexivity.
  intros Hinvoice. change (false = true) in Hinvoice. discriminate Hinvoice.
Defined.

Lemma validate_invitee_accepts_witness :
  validate noItemErrors noPayoutErrors receiptForInvitee = Ok ∅.
Proof.
  apply (validate_invitee_accepts noItemErrors noPayoutErrors receiptForInvitee);
    first reflexivity.
  split; [reflexivity | right; split; reflexivity].
Defined.

Lemma formikOnSubmit_submits_valid_values_witness :
  truthy (prop (values taxiNoItems) "description") = true
  ∧ nullish (prop (values taxiNoItems) "payee") = false.
Proof.
  apply (formikOnSubmit_submits_valid_values
           noItemErrors noPayoutErrors (values taxiNoItems) (values taxiNoItems)).
  reflexivity.
Defined.

Lemma validate_items_aligned_witness :
  ∃ errs, validate requireItemAmount noPayoutErrors receiptTwoItems = Ok errs
    ∧ errs !! "items"
      = Some (VArr [VObj ∅; VObj {[ "amount" := requiredError ]}]).
Proof.
  destruct (validate_items_aligned requireItemAmount noPayoutErrors receiptTwoItems
              [newItem; VObj {[ "description" := VStr "y" ]}])
    as (errs & Herrs & _ & Hsome); [reflexivity | reflexivity |].
  exists errs. split; first exact Herrs.
  destruct Hsome as (itemsErrors & Hitems & Hlen & Hat).
  { right. left. reflexivity. }
  rewrite Hitems. do 2 f_equal.
  destruct itemsErrors as [|e1 [|e2 [|e3 rest]]]; try discriminate Hlen.
  pose proof (Hat 0%nat _ eq_refl) as H1. pose proof (Hat 1%nat _ eq_refl) as H2.
  injection H1 as ->. injection H2 as ->. reflexivity.
Defined.

Lemma validate_location_errors_witness :
  ∃ errs, validate noItemErrors noPayoutErrors invoiceOfProfile = Ok errs
    ∧ is_Some (errs !! "payeeLocation").
Proof.
  destruct (validate_location_errors noItemErrors noPayoutErrors invoiceOfProfile)
    as (errs & Herrs & Hiff).
  { right. eexists. reflexivity. }
  exists errs. split; first exact Herrs.
  apply Hiff. split; [reflexivity | split; [reflexivity | left; reflexivity]].
Defined.

Lemma validate_payoutMethod_errors_witness :
  ∃ errs, validate noItemErrors requirePayoutType invoiceOfProfile = Ok errs
    ∧ errs !! "payoutMethod" = Some (VObj {[ "type" := requiredError ]}).
Proof.
  apply (validate_payoutMethod_errors noItemErrors requirePayoutType invoiceOfProfile
           [newItem]); reflexivity.
Defined.

Lemma initialValues_open_on_payee_witness :
  ∃ v, initialValues "DRAFT" collectiveUSD None = Ok v
    ∧ ∀ errs s, initialStep flattenFlat (Form v errs s) = PAYEE.
Proof.
  apply (initialValues_open_on_payee flattenFlat "DRAFT" collectiveUSD None);
    reflexivity.
Defined.

Lemma initialValues_of_draft_witness :
  ∃ v, initialValues "DRAFT" collectiveUSD (Some draftExpense) = Ok v
    ∧ v !! "items" = Some (VArr [newItem]).
Proof.
  destruct (initialValues_of_draft "DRAFT" collectiveUSD draftExpense eq_refl)
    as [_ Hdraft].
  destruct (Hdraft eq_refl) as (v & Hv & Hitems & _).
  exists v. split; [exact Hv | exact Hitems].
Defined.

Lemma onPersisterLoad_values_witness :
  values (onPersisterLoad "BANK_ACCOUNT" true (Some (Some persistedValues)) false
            collectiveUSD taxiNoItems) !! "location" = None
  ∧ values (onPersisterLoad "BANK_ACCOUNT" true (Some (Some persistedValues)) false
              collectiveUSD taxiNoItems) !! "payoutMethod" = Some VUndefined.
Proof.
  destruct (onPersisterLoad_values "BANK_ACCOUNT" true false
              (Some (Some persistedValues)) collectiveUSD taxiNoItems) as [Hload _].
  destruct (Hload persistedValues eq_refl eq_refl eq_refl)
    as (Hlocation & _ & Hpayout & _).
  split; [exact Hlocation | exact Hpayout].
Defined.

Lemma back_and_type_change_drop_invitee_witness :
  step (onBack draftForInvitee) = PAYEE
  ∧ truthy (opt_prop (prop (values (onBack draftForInvitee)) "payee") "isInvite") = false.
Proof.
  destruct (back_and_type_change_drop_invitee draftForInvitee (onBack draftForInvitee))
    as (Hstep & Hinv & _); first by left.
  split; [exact Hstep | exact Hinv].
Defined.

Lemma onPayoutProfiles_draft_payee_payload_witness :
  ∃ out,
    prepareExpenseForSubmit (values (onPayoutProfiles true false [] draftToComplete))
    = Ok out
    ∧ out !! "payee"
      = Some (VObj {[ "name" := VStr "Ann"; "email" := VStr "ann@example.org" ]}).
Proof.
  destruct (onPayoutProfiles_draft_payee_payload true [] draftToComplete
              {[ "name" := VStr "Ann"; "email" := VStr "ann@example.org";
                 "slug" := VStr "ann" ]})
    as (_ & out & Hout & Hpayee); [reflexivity | reflexivity |].
  exists out. split; [exact Hout | exact Hpayee].
Defined.

Lemma onPayoutProfiles_keeps_choice_witness :
  onPayoutProfiles false true [VObj {[ "id" := VStr "p2" ]}] taxiNoItems = taxiNoItems.
Proof.
  apply (onPayoutProfiles_keeps_choice false true [VObj {[ "id" := VStr "p2" ]}]
           taxiNoItems).
  - left. reflexivity.
  - right. right. right. split; reflexivity.
Defined.

Lemma onPayeeChange_keeps_address_witness :
  ∃ f', onPayeeChange false taxiNoItems = Ok f' ∧ values f' = values taxiNoItems.
Proof.
  destruct (onPayeeChange_keeps_address false taxiNoItems) as (f' & Hf' & _ & Hkeep).
  exists f'. split; first exact Hf'. apply Hkeep. right. reflexivity.
Defined.

Lemma onPayeeChange_prefills_location_witness :
  ∃ f', onPayeeChange false profileChosen = Ok f'
    ∧ get (VObj (values f')) ["payeeLocation"; "country"] = VStr "FR"
    ∧ get (VObj (values f')) ["payeeLocation"; "address"] = VStr "".
Proof.
  destruct (onPayeeChange_prefills_location false profileChosen)
    as (f' & Hf' & Hcountry & Haddress & _); [reflexivity | reflexivity |].
  exists f'. split; first exact Hf'. split; [exact Hcountry | exact Haddress].
Defined.

Lemma TruncatedTextWithTooltip_fits_witness :
  TruncatedText.TruncatedTextWithTooltip "opencollective-frontend" (Some 10%Z)
  = TruncatedText.Tooltip "opencollective-frontend" "opencol...".
Proof.
  destruct (TruncatedTextWithTooltip_fits "opencollective-frontend" (Some 10%Z))
    as (_ & _ & _ & Hlong); first reflexivity.
  destruct Hlong as (Hr & _ & Hcut); first (cbn; lia).
  rewrite Hr, Hcut; [reflexivity | cbn; lia].
Defined.

Lemma CreateCollectiveForm_validate_accepts_witness :
  CreateCollectiveForm.validate agora = ∅.
Proof.
  apply (CreateCollectiveForm_validate_accepts agora).
  split; first (cbn; lia). split; first (cbn; lia). split; last (cbn; lia).
  apply (proj2 (slug_test "agora")). reflexivity.
Defined.

Lemma CreateCollectiveForm_validate_slug_witness :
  CreateCollectiveForm.validate hyphenated !! "slug"
  = Some CreateCollectiveForm.errorSlugHyphen.
Proof.
  apply (CreateCollectiveForm_validate_slug hyphenated).
  left. by exists "agora".
Defined.

Lemma formatGithubRepoName_shape_witness :
  String.length (CreateCollectiveForm.formatGithubRepoName "my-cool_repo") = 12%nat
  ∧ CreateCollectiveForm.formatGithubRepoName "my-cool_repo" = "My Cool Repo".
Proof.
  split; last reflexivity.
  apply (formatGithubRepoName_shape "my-cool_repo").
Defined.

Lemma CreateCollectiveForm_initialValues_of_repo_witness :
  CreateCollectiveForm.validate (CreateCollectiveForm.initialValues (Some "-agora"))
  !! "slug" = Some CreateCollectiveForm.errorSlugHyphen.
Proof.
  apply (CreateCollectiveForm_initialValues_of_repo "-agora").
  left. by exists "agora".
Defined.

Lemma CreateCollectiveForm_hostTos_kept_witness :
  CreateCollectiveForm.hostTos
    (CreateCollectiveForm.State true
       (CreateCollectiveForm.hostTos
          (CreateCollectiveForm.componentDidMount termsAccepted
             CreateCollectiveForm.initialState))) = true.
Proof.
  apply (CreateCollectiveForm_hostTos_kept termsAccepted); first reflexivity.
  eapply CreateCollectiveForm.reachable_change.
  - apply CreateCollectiveForm.reachable_mounted.
  - apply CreateCollectiveForm.change_tos.
Defined.

Lemma stepTwoCompleted_enables_submit_witness :
  stepTwoCompleted flattenFlat draftForInvitee = Ok (VBool true).
Proof.
  apply (stepTwoCompleted_enables_submit flattenFlat draftForInvitee). reflexivity.
Defined.
